(** * Per-issue sliding-window rate limiting of Sentry events

    A shallow embedding of [sentry_rate_limiting/process_event_limiter.py]:
    the fingerprint extractor [build_event_fingerprint] and the limiter class
    [PerProcessPerIssueEventLimiter], followed by the properties of the
    specification that concern them.

    Conventions of the embedding.
    - A [datetime] is its number of microseconds since the epoch and a
      [timedelta] a number of microseconds, both integers; [datetime.now] is
      an explicit argument [now] of the methods that read the clock.  Both
      types have a range: building a [timedelta] and subtracting one from a
      [datetime] raise [OverflowError] outside it.
    - A Python exception is a value of [exn]; a function that may raise returns
      a [result].  Methods of the limiter mutate [self]: they live in the
      state-and-exception monad [M].
    - The [defaultdict(deque)] of the limiter is a finite map from fingerprint
      strings to lists of timestamps, oldest first; reading a missing key
      creates an empty record, as [defaultdict.__getitem__] does. *)

From stdpp Require Import gmap strings list sorting pretty.
From Stdlib Require Import ZArith Ascii ssreflect.

Local Open Scope string_scope.
Local Open Scope list_scope.
Local Open Scope Z_scope.

(** ** Exceptions and results *)

Module Frame.
(** A frame of [event["threads"]["values"][n]["stacktrace"]["frames"]]: a
    dictionary whose ["abs_path"] and ["lineno"] keys may be missing. *)
Record t := mk {
  abs_path : option string;
  lineno : option Z;
  function : string
}.
End Frame.

Module Stacktrace.
(** The ["stacktrace"] dictionary of a thread, whose ["frames"] key may be
    missing. *)
Record t := mk { frames : option (list Frame.t) }.
End Stacktrace.

Module Thread.
(** An entry of [event["threads"]["values"]], whose ["stacktrace"] key may
    be missing. *)
Record t := mk { id : Z; stacktrace : option Stacktrace.t }.
End Thread.

Module FrameSummary.
(** An entry of the [StackSummary] that [traceback.extract_tb] returns. *)
Record t := mk { filename : string; lineno : Z; name : string }.
End FrameSummary.

Module LogRecord.
Record t := mk { pathname : string; lineno : Z; msg : string }.
End LogRecord.

(** The text of an exception: a literal, or a template with the thread list
    it is formatted with. *)
Inductive message :=
| Literal (text : string)
| Format (template : string) (arg : list Thread.t).

Inductive exn :=
| NotImplementedError (m : message)
| IndexError
| KeyError (key : string)
| TypeError
| OverflowError
| OtherException (name : string).

Inductive result (A : Type) :=
| Ok (a : A)
| Raise (e : exn).
Arguments Ok {A} a.
Arguments Raise {A} e.

Global Instance result_ret : MRet result := fun A a => Ok a.
Global Instance result_bind : MBind result := fun A B f r =>
  match r with
  | Ok a => f a
  | Raise e => Raise e
  end.

(** The two typed failures of the specification, as the source raises them. *)
Definition UnsupportedShape : exn :=
  NotImplementedError (Literal "unhandled case in build_event_fingerprint").

Definition AmbiguousMultiThread (values : list Thread.t) : exn :=
  NotImplementedError
    (Format "got multiple values in sentry 'threads' attribute! {}" values).

(** ** Events and hints *)

(** [event["threads"]] is a dictionary with a ["values"] list. *)
Record Threads := { values : list Thread.t }.

(** The keys of an [Event] the limiter reads, and the rest of the dictionary
    kept as [extra]. *)
Record Event := {
  threads : option Threads;
  extra : list (string * string)
}.

(** A traceback is the chain of its [tb_next] links; [None] is the empty
    chain. *)
Record TracebackNode := {
  co_filename : string;
  tb_lineno : Z;
  co_name : string
}.
Definition TracebackType := list TracebackNode.

(** [hint["exc_info"]] is the triple (type, value, traceback). *)
Record ExcInfo := {
  exc_type : string;
  exc_value : string;
  exc_tb : TracebackType
}.

Record Hint := {
  exc_info : option ExcInfo;
  log_record : option LogRecord.t
}.

(** The malformed input [({}, {})] of the tests. *)
Definition empty_event : Event := {| threads := None; extra := [] |}.
Definition empty_hint : Hint := {| exc_info := None; log_record := None |}.

(** ** String helpers of the Python runtime *)

Definition newline : string := String "010"%char "".

(** [sep.join(parts)] *)
Fixpoint join (sep : string) (parts : list string) : string :=
  match parts with
  | [] => ""
  | [x] => x
  | x :: rest => x +:+ sep +:+ join sep rest
  end.

(** A list comprehension whose element expression may raise: the first
    exception ends it. *)
Fixpoint comprehension {A B : Type} (f : A -> result B) (l : list A)
  : result (list B) :=
  match l with
  | [] => Ok []
  | x :: rest =>
      y ← f x;
      ys ← comprehension f rest;
      Ok (y :: ys)
  end.

(** [traceback.extract_tb]: the static summary of a traceback. *)
Definition extract_tb (tb : TracebackType) : list FrameSummary.t :=
  map (fun n => FrameSummary.mk (co_filename n) (tb_lineno n) (co_name n)) tb.

(** ** The fingerprint extractor *)

Definition _fingerprint_from_exc_info (hint : Hint) : result string :=
  match exc_info hint with
  | None => Raise TypeError
  | Some info =>
      let exc_tb := exc_tb info in
      let tb_summary := extract_tb exc_tb in
      Ok (join newline
            (map (fun frame =>
                    FrameSummary.filename frame +:+ ":" +:+
                    pretty (FrameSummary.lineno frame))
                 tb_summary))
  end.

(** [f"{frame['abs_path']}:{frame['lineno']}"] *)
Definition frame_text (frame : Frame.t) : result string :=
  match Frame.abs_path frame with
  | None => Raise (KeyError "abs_path")
  | Some abs_path =>
      match Frame.lineno frame with
      | None => Raise (KeyError "lineno")
      | Some lineno => Ok (abs_path +:+ ":" +:+ pretty lineno)
      end
  end.

Definition _fingerprint_from_threads (event : Event) : result string :=
  match threads event with
  | None => Raise (KeyError "threads")
  | Some th =>
      if bool_decide (1 < length (values th))%nat
      then Raise (AmbiguousMultiThread (values th))
      else
        match values th !! 0%nat with
        | None => Raise IndexError
        | Some thread =>
            match Thread.stacktrace thread with
            | None => Raise (KeyError "stacktrace")
            | Some stacktrace =>
                match Stacktrace.frames stacktrace with
                | None => Raise (KeyError "frames")
                | Some frames =>
                    lines ← comprehension frame_text frames;
                    Ok (join newline lines)
                end
            end
        end
  end.

Definition _fingerprint_from_log_record (hint : Hint) : result string :=
  match log_record hint with
  | None => Raise (KeyError "log_record")
  | Some log_record =>
      Ok ("LogRecord " +:+ LogRecord.pathname log_record +:+ ":" +:+
          pretty (LogRecord.lineno log_record) +:+ " " +:+
          LogRecord.msg log_record)
  end.

Definition build_event_fingerprint (event : Event) (hint : Hint)
  : result string :=
  if bool_decide (is_Some (exc_info hint)) then _fingerprint_from_exc_info hint
  else if bool_decide (is_Some (threads event))
       then _fingerprint_from_threads event
  else if bool_decide (is_Some (log_record hint))
       then _fingerprint_from_log_record hint
  else Raise UnsupportedShape.

(** ** The limiter *)

Definition datetime := Z.
Definition timedelta := Z.

(** A number of minutes, of seconds, in microseconds. *)
Definition timedelta_minutes (m : Z) : timedelta := m * 60000000.
Definition timedelta_seconds (s : Z) : timedelta := s * 1000000.

(** The range of [datetime]: from 0001-01-01 00:00:00 to
    9999-12-31 23:59:59.999999, in microseconds since the epoch. *)
Definition datetime_min : datetime := -62135596800000000.
Definition datetime_max : datetime := 253402300799999999.

Definition representable (t : Z) : Prop := datetime_min <= t <= datetime_max.

(** The range of [timedelta]: from -999999999 days to 999999999 days
    23:59:59.999999. *)
Definition timedelta_min : timedelta := -86399999913600000000.
Definition timedelta_max : timedelta := 86399999999999999999.

(** [timedelta(minutes=m)]: raises [OverflowError] out of the range. *)
Definition timedelta_of_minutes (m : Z) : result timedelta :=
  if bool_decide (timedelta_min <= timedelta_minutes m <= timedelta_max)
  then Ok (timedelta_minutes m)
  else Raise OverflowError.

(** [d - delta] on a [datetime]: raises [OverflowError] when the result
    leaves the range of [datetime]. *)
Definition datetime_sub (d : datetime) (delta : timedelta) : result datetime :=
  if bool_decide (representable (d - delta)) then Ok (d - delta)
  else Raise OverflowError.

Record PerProcessPerIssueEventLimiter := {
  recorded : gmap string (list datetime);
  rate_limit_window : timedelta;
  rate_limit_number_of_events : Z
}.

(** The state in which [__init__] leaves the object when it returns: no
    record, the window and the cap.  [__init__] below returns it unless
    [timedelta(minutes=...)] raises, so what holds of [init] for all
    arguments holds of every limiter that [__init__] builds. *)
Definition init (rate_limit_window_minutes rate_limit_number_of_events : Z)
  : PerProcessPerIssueEventLimiter :=
  {| recorded := ∅;
     rate_limit_window := timedelta_minutes rate_limit_window_minutes;
     rate_limit_number_of_events := rate_limit_number_of_events |}.

(** [__init__]: [timedelta(minutes=...)] may raise, and then there is no
    limiter.  The defaults are 15 minutes and 100 events. *)
Definition __init__ (rate_limit_window_minutes rate_limit_number_of_events : Z)
  : result PerProcessPerIssueEventLimiter :=
  _ ← timedelta_of_minutes rate_limit_window_minutes;
  Ok (init rate_limit_window_minutes rate_limit_number_of_events).

Definition init_default : PerProcessPerIssueEventLimiter := init 15 100.

(** Methods run on [self], may mutate it, and return or raise. *)
Definition M (A : Type) : Type :=
  PerProcessPerIssueEventLimiter -> result A * PerProcessPerIssueEventLimiter.

Global Instance M_ret : MRet M := fun A a self => (Ok a, self).
Global Instance M_bind : MBind M := fun A B f m self =>
  match m self with
  | (Ok a, self') => f a self'
  | (Raise e, self') => (Raise e, self')
  end.

Definition lift {A} (r : result A) : M A := fun self => (r, self).
Definition get_self : M PerProcessPerIssueEventLimiter :=
  fun self => (Ok self, self).
Definition set_recorded (r : gmap string (list datetime)) : M unit :=
  fun self =>
    (Ok tt,
     {| recorded := r;
        rate_limit_window := rate_limit_window self;
        rate_limit_number_of_events := rate_limit_number_of_events self |}).

(** The inner loop of [remove_old_records]:
    [while timestamps and timestamps[0] < boundary: timestamps.popleft()]. *)
Fixpoint popleft_while_old (boundary : datetime) (timestamps : list datetime)
  : list datetime :=
  match timestamps with
  | [] => []
  | t :: rest =>
      if t <? boundary then popleft_while_old boundary rest else timestamps
  end.

Definition remove_old_records (now : datetime) : M unit :=
  self ← get_self;
  boundary ← lift (datetime_sub now (rate_limit_window self));
  set_recorded (popleft_while_old boundary <$> recorded self).

(** [self.recorded[fingerprint]] on the [defaultdict]: a missing key is
    created with an empty deque. *)
Definition recorded_getitem (fingerprint : string) : M (list datetime) :=
  self ← get_self;
  match recorded self !! fingerprint with
  | Some timestamps => mret timestamps
  | None => set_recorded (<[fingerprint := []]> (recorded self));; mret []
  end.

(** [fingerprint_timestamps.append(now)]: the deque is the one stored in the
    dictionary, so the append is seen there. *)
Definition recorded_append (fingerprint : string) (now : datetime) : M unit :=
  self ← get_self;
  set_recorded (alter (fun timestamps => timestamps ++ [now]) fingerprint
                  (recorded self)).

Definition should_rate_limit (event : Event) (hint : Hint) (now : datetime)
  : M bool :=
  fingerprint ← lift (build_event_fingerprint event hint);
  remove_old_records now;;
  fingerprint_timestamps ← recorded_getitem fingerprint;
  self ← get_self;
  let drop_event :=
    bool_decide (rate_limit_number_of_events self
                 <= Z.of_nat (length fingerprint_timestamps)) in
  (if negb drop_event then recorded_append fingerprint now else mret tt);;
  mret drop_event.

(** A call of [logger.warning(msg, exc_info=True)]: the text and the exception
    being handled. *)
Record Warning := { warning_msg : string; warning_exc_info : exn }.

(** [before_send] calls [self.should_rate_limit], which a subclass may
    override (the tests do): the method is a parameter here, and
    [before_send] is the instance at the class's own method.  The result
    carries the warnings logged by the call. *)
Definition before_send_with
    (should_rate_limit : Event -> Hint -> datetime -> M bool)
    (event : Event) (hint : Hint) (now : datetime)
    (self : PerProcessPerIssueEventLimiter)
  : result (option Event) * PerProcessPerIssueEventLimiter * list Warning :=
  let '(drop_event, self', logged) :=
    match should_rate_limit event hint now self with
    | (Ok drop_event, self') => (drop_event, self', [])
    | (Raise e, self') =>
        (false, self',
         [{| warning_msg :=
               "exception occurred in sentry before_send, ignoring rate limit";
             warning_exc_info := e |}])
    end in
  if drop_event then (Ok None, self', logged)
  else (Ok (Some event), self', logged).

Definition before_send := before_send_with should_rate_limit.

(** ** Sequences of calls *)

(** One call of [should_rate_limit]: the event, the hint and the clock
    reading. *)
Definition call : Type := Event * Hint * datetime.
Definition call_now (c : call) : datetime := c.2.

Definition step (self : PerProcessPerIssueEventLimiter) (c : call)
  : result bool * PerProcessPerIssueEventLimiter :=
  should_rate_limit c.1.1 c.1.2 c.2 self.

(** The decisions of a list of calls made one after the other, and the
    limiter they leave. *)
Fixpoint run (self : PerProcessPerIssueEventLimiter) (calls : list call)
  : list (result bool) * PerProcessPerIssueEventLimiter :=
  match calls with
  | [] => ([], self)
  | c :: rest =>
      let '(decision, self') := step self c in
      let '(decisions, self'') := run self' rest in
      (decision :: decisions, self'')
  end.

(** The record of a fingerprint, empty when the key is missing. *)
Definition record_of (self : PerProcessPerIssueEventLimiter)
    (fingerprint : string) : list datetime :=
  default [] (recorded self !! fingerprint).

(** [self] with its dictionary replaced, the configuration kept. *)
Definition with_recorded (self : PerProcessPerIssueEventLimiter)
    (r : gmap string (list datetime)) : PerProcessPerIssueEventLimiter :=
  {| recorded := r;
     rate_limit_window := rate_limit_window self;
     rate_limit_number_of_events := rate_limit_number_of_events self |}.

(** What one call does to the record of its own fingerprint: the decision
    and the record it leaves. *)
Definition record_step (cap : Z) (window : timedelta) (now : datetime)
    (timestamps : list datetime) : bool * list datetime :=
  let purged := popleft_while_old (now - window) timestamps in
  if bool_decide (cap <= Z.of_nat (length purged)) then (true, purged)
  else (false, purged ++ [now]).

(** ** Predicates of the specification *)

(** No record holds more timestamps than the cap. *)
Definition bounded (self : PerProcessPerIssueEventLimiter) : Prop :=
  forall fingerprint timestamps,
    recorded self !! fingerprint = Some timestamps ->
    Z.of_nat (length timestamps) <= rate_limit_number_of_events self.

(** Every record is ordered oldest first. *)
Definition time_ordered (self : PerProcessPerIssueEventLimiter) : Prop :=
  forall fingerprint timestamps,
    recorded self !! fingerprint = Some timestamps ->
    StronglySorted Z.le timestamps.

(** No record holds a timestamp later than [latest]. *)
Definition not_after (latest : datetime)
    (self : PerProcessPerIssueEventLimiter) : Prop :=
  forall fingerprint timestamps,
    recorded self !! fingerprint = Some timestamps ->
    Forall (fun t => t <= latest) timestamps.

(** The clock readings of successive calls never decrease. *)
Definition monotonic (calls : list call) : Prop :=
  StronglySorted Z.le (call_now <$> calls).

(** Every timestamp of every record is inside the window that ends at
    [now]. *)
Definition within_window (now : datetime)
    (self : PerProcessPerIssueEventLimiter) : Prop :=
  forall fingerprint timestamps,
    recorded self !! fingerprint = Some timestamps ->
    Forall (fun t => now - rate_limit_window self <= t) timestamps.

(** ** Call sites *)

(** [c in s] for a character [c]. *)
Fixpoint contains (c : ascii) (s : string) : bool :=
  match s with
  | EmptyString => false
  | String c' s' => Ascii.eqb c c' || contains c s'
  end.

(** The (file, line) sequence a fingerprint is derived from. *)
Definition call_site : Type := list (string * Z).

Definition traceback_site (tb : TracebackType) : call_site :=
  map (fun n => (co_filename n, tb_lineno n)) tb.

(** The (file, line) pair of a frame that has both keys. *)
Definition frame_pair (frame : Frame.t) : option (string * Z) :=
  match Frame.abs_path frame, Frame.lineno frame with
  | Some abs_path, Some lineno => Some (abs_path, lineno)
  | _, _ => None
  end.

(** The (file, line) sequence of frames that all have both keys. *)
Fixpoint frames_site (frames : list Frame.t) : option call_site :=
  match frames with
  | [] => Some []
  | frame :: rest =>
      match frame_pair frame, frames_site rest with
      | Some p, Some site => Some (p :: site)
      | _, _ => None
      end
  end.

(** The call site of a capture in one of the two stack shapes: the traceback
    of the hint when there is one, else the frames of the single thread of
    the event, when the thread has a stack trace whose frames all have a path
    and a line. *)
Definition site_of (event : Event) (hint : Hint) : option call_site :=
  match exc_info hint with
  | Some info => Some (traceback_site (exc_tb info))
  | None =>
      match threads event with
      | Some th =>
          match values th with
          | [thread] =>
              match Thread.stacktrace thread with
              | Some stacktrace =>
                  match Stacktrace.frames stacktrace with
                  | Some frames => frames_site frames
                  | None => None
                  end
              | None => None
              end
          | _ => None
          end
      | None => None
      end
  end.

Definition newline_free (site : call_site) : Prop :=
  Forall (fun p => contains "010"%char p.1 = false) site.

(** ** Inputs of the scenarios *)

(** A hint that carries only a log record, and the event that goes with it. *)
Definition log_hint (pathname : string) (lineno : Z) (msg : string) : Hint :=
  {| exc_info := None;
     log_record := Some (LogRecord.mk pathname lineno msg) |}.

(** An event rendered by the logging integration: one thread with its
    frames. *)
Definition thread_event (frames : list Frame.t) : Event :=
  {| threads :=
       Some {| values :=
                 [Thread.mk 1 (Some (Stacktrace.mk (Some frames)))] |};
     extra := [] |}.

(** A frame with its path and line. *)
Definition frame (abs_path : string) (lineno : Z) (function : string)
  : Frame.t :=
  Frame.mk (Some abs_path) (Some lineno) function.

Definition exception_hint (tb : TracebackType) : Hint :=
  {| exc_info :=
       Some {| exc_type := "ValueError"; exc_value := "test 1";
               exc_tb := tb |};
     log_record := None |}.

(** The scenario of the specification: three occurrences at [t0], two at
    [t0 + 61s], two at [t0 + 105s]. *)
Definition scenario (event : Event) (hint : Hint) (t0 : datetime)
  : list call :=
  [ (event, hint, t0); (event, hint, t0); (event, hint, t0);
    (event, hint, t0 + timedelta_seconds 61);
    (event, hint, t0 + timedelta_seconds 61);
    (event, hint, t0 + timedelta_seconds 105);
    (event, hint, t0 + timedelta_seconds 105) ].

(** The decisions of successive occurrences of one fingerprint at the given
    clock readings, from the record [timestamps]. *)
Fixpoint record_run (cap : Z) (window : timedelta)
    (timestamps : list datetime) (times : list datetime) : list bool :=
  match times with
  | [] => []
  | now :: rest =>
      let next := record_step cap window now timestamps in
      next.1 :: record_run cap window next.2 rest
  end.

(** Two occurrences ten minutes then five minutes after the epoch: a clock
    that went back. *)
Definition clock_went_back (event : Event) (hint : Hint) : list call :=
  [ (event, hint, timedelta_minutes 10); (event, hint, timedelta_minutes 5) ].

Definition sample_hint : Hint := log_hint "app.py" 12 "oops %s".
Definition sample_fingerprint : string := "LogRecord app.py:12 oops %s".
Definition other_hint : Hint := log_hint "app.py" 40 "gone".
Definition other_fingerprint : string := "LogRecord app.py:40 gone".

(** The text of one (file, line) pair and of a whole call site, as both
    stack shapes print them. *)
Definition site_line (p : string * Z) : string := p.1 +:+ ":" +:+ pretty p.2.
Definition site_text (site : call_site) : string :=
  join newline (site_line <$> site).

(** An instant for the scenarios: 2023-11-14 22:13:20 UTC. *)
Definition t0_sample : datetime := 1700000000000000.

(** An occurrence of [other_hint] at the epoch, then nothing for two
    minutes. *)
Definition other_seen : PerProcessPerIssueEventLimiter :=
  (run (init 1 2) [(empty_event, other_hint, 0)]).2.

(** Two occurrences of [sample_hint] at the epoch with a cap of 2: the cap is
    reached. *)
Definition cap_reached : PerProcessPerIssueEventLimiter :=
  (run (init 1 2) [(empty_event, sample_hint, 0);
                   (empty_event, sample_hint, 0)]).2.

(** An event whose ["threads"] has an empty ["values"] list. *)
Definition no_thread_event : Event :=
  {| threads := Some {| values := [] |}; extra := [] |}.

(** Two frames, and one frame whose file name holds a newline and prints as
    the two. *)
Definition two_frames : list Frame.t :=
  [frame "a.py" 1 "f"; frame "b.py" 2 "g"].
Definition merged_frame : list Frame.t :=
  [frame ("a.py:1" +:+ newline +:+ "b.py") 2 "g"].

(** The same raise site seen as a traceback and as a rendered thread. *)
Definition site_traceback : TracebackType :=
  [{| co_filename := "a.py"; tb_lineno := 1; co_name := "f_raise_1" |}].
Definition site_frames : list Frame.t := [frame "a.py" 1 "<module>"].

(** ** The calls of one fingerprint within a run *)

(** Whether the extractor gives [fingerprint] for the event and hint of a
    call. *)
Definition fingerprint_is (fingerprint : string) (c : call) : bool :=
  match build_event_fingerprint c.1.1 c.1.2 with
  | Ok fp => bool_decide (fp = fingerprint)
  | Raise _ => false
  end.

(** The decisions, within a run, of the calls whose fingerprint is
    [fingerprint]. *)
Fixpoint decisions_for (fingerprint : string)
    (self : PerProcessPerIssueEventLimiter) (calls : list call)
  : list (result bool) :=
  match calls with
  | [] => []
  | c :: rest =>
      let next := step self c in
      if fingerprint_is fingerprint c
      then next.1 :: decisions_for fingerprint next.2 rest
      else decisions_for fingerprint next.2 rest
  end.

Definition is_admitted (decision : result bool) : bool :=
  match decision with
  | Ok false => true
  | _ => false
  end.

(** How many decisions admit. *)
Definition admitted (decisions : list (result bool)) : nat :=
  length (List.filter is_admitted decisions).

(** The clock readings of the calls of one fingerprint. *)
Definition times_for (fingerprint : string) (calls : list call)
  : list datetime :=
  call_now <$> List.filter (fingerprint_is fingerprint) calls.

(** The fingerprints that have a record. *)
Definition fingerprints (self : PerProcessPerIssueEventLimiter)
  : gset string :=
  dom (recorded self).

(** ** The hook seen by the pipeline *)

(** The events that the hook lets through, among the calls whose
    fingerprint is [fingerprint], the limiter being threaded through the
    calls.  The hook is [before_send], or the function a configuration module
    registers. *)
Fixpoint forwarded_for
    (hook : Event -> Hint -> datetime -> PerProcessPerIssueEventLimiter ->
            result (option Event) * PerProcessPerIssueEventLimiter
            * list Warning)
    (fingerprint : string)
    (self : PerProcessPerIssueEventLimiter) (calls : list call)
  : list Event :=
  match calls with
  | [] => []
  | c :: rest =>
      let '(ret, self', _) := hook c.1.1 c.1.2 c.2 self in
      match ret with
      | Ok (Some event) =>
          if fingerprint_is fingerprint c
          then event :: forwarded_for hook fingerprint self' rest
          else forwarded_for hook fingerprint self' rest
      | _ => forwarded_for hook fingerprint self' rest
      end
  end.

(** [example/sentry_config.py]: the settings, the limiter built from them at
    import time, and the hook registered with the SDK, which runs on that
    limiter. *)
Module sentry_config.
Record Settings := {
  SENTRY_RATE_LIMIT_PER_ISSUE_NUMBER_OF_EVENTS : Z;
  SENTRY_RATE_LIMIT_PER_ISSUE_WINDOW_MINUTES : Z;
  SENTRY_DSN : string
}.

Definition settings : Settings :=
  {| SENTRY_RATE_LIMIT_PER_ISSUE_NUMBER_OF_EVENTS := 5;
     SENTRY_RATE_LIMIT_PER_ISSUE_WINDOW_MINUTES := 1;
     SENTRY_DSN := "http://public@127.0.0.1:8001/1" |}.

Definition event_limiter : PerProcessPerIssueEventLimiter :=
  init (SENTRY_RATE_LIMIT_PER_ISSUE_WINDOW_MINUTES settings)
       (SENTRY_RATE_LIMIT_PER_ISSUE_NUMBER_OF_EVENTS settings).

Definition before_send (event : Event) (hint : Hint) (now : datetime)
    (event_limiter : PerProcessPerIssueEventLimiter)
  : result (option Event) * PerProcessPerIssueEventLimiter * list Warning :=
  before_send event hint now event_limiter.
End sentry_config.

(** ** Inputs of the further instances *)

(** A frame that has both the ["abs_path"] and the ["lineno"] key. *)
Definition has_path_and_line (frame : Frame.t) : Prop :=
  is_Some (frame_pair frame).

(** The key that a frame without both keys lacks first, in the order in
    which the f-string reads them. *)
Definition missing_key (frame : Frame.t) : string :=
  match Frame.abs_path frame with
  | None => "abs_path"
  | Some _ => "lineno"
  end.

(** Events with threads that cannot be used: a thread without a stack
    trace, a stack trace without frames, a frame without a line number. *)
Definition headless_thread_event : Event :=
  {| threads := Some {| values := [Thread.mk 1 None] |}; extra := [] |}.
Definition frameless_thread_event : Event :=
  {| threads := Some {| values := [Thread.mk 1 (Some (Stacktrace.mk None))] |};
     extra := [] |}.
Definition lineless_frames : list Frame.t :=
  [frame "a.py" 1 "f"; Frame.mk (Some "b.py") None "g"].

(** Five occurrences of one log call within a second. *)
Definition burst (t0 : datetime) : list call :=
  [ (empty_event, sample_hint, t0); (empty_event, other_hint, t0);
    (empty_event, sample_hint, t0 + 1); (empty_event, empty_hint, t0 + 2);
    (empty_event, sample_hint, t0 + 3); (empty_event, sample_hint, t0 + 4) ].

(** * Properties *)

(** ** The purge loop *)

Section popleft.
Context (boundary : datetime).
Implicit Types timestamps : list datetime.

Lemma popleft_while_old_split timestamps :
  exists expired,
    timestamps = expired ++ popleft_while_old boundary timestamps /\
    Forall (fun t => t < boundary) expired.
Proof.
  induction timestamps as [|t rest [expired [Heq Hold]]]; simpl.
  - exists []. by split.
  - destruct (Z.ltb_spec t boundary) as [Hlt|Hge].
    + exists (t :: expired). split; [by rw /= -Heq | by constructor].
    + exists []. by split.
Qed.

Lemma popleft_while_old_head timestamps t :
  head (popleft_while_old boundary timestamps) = Some t -> boundary <= t.
Proof.
  induction timestamps as [|t' rest IH]; simpl; [done|].
  destruct (Z.ltb_spec t' boundary); [done|].
  simpl. by intros [= ->].
Qed.

Lemma popleft_while_old_length timestamps :
  (length (popleft_while_old boundary timestamps) <= length timestamps)%nat.
Proof.
  induction timestamps as [|t rest IH]; simpl; [done|].
  destruct (t <? boundary); simpl; lia.
Qed.

Lemma popleft_while_old_all_old timestamps :
  Forall (fun t => t < boundary) timestamps ->
  popleft_while_old boundary timestamps = [].
Proof.
  induction 1 as [|t rest Hlt _ IH]; simpl; [done|].
  by rw (proj2 (Z.ltb_lt _ _) Hlt).
Qed.

Lemma popleft_while_old_sorted timestamps :
  StronglySorted Z.le timestamps ->
  StronglySorted Z.le (popleft_while_old boundary timestamps).
Proof.
  induction 1 as [|t rest Hs IH Hall]; simpl; [constructor|].
  destruct (t <? boundary); [done | by constructor].
Qed.

Lemma popleft_while_old_retained timestamps :
  StronglySorted Z.le timestamps ->
  Forall (fun t => boundary <= t) (popleft_while_old boundary timestamps).
Proof.
  induction 1 as [|t rest Hs IH Hall]; simpl; [constructor|].
  destruct (Z.ltb_spec t boundary) as [Hlt|Hge]; [done|].
  constructor; [done|].
  eapply Forall_impl; [exact Hall|]. simpl. lia.
Qed.

Lemma popleft_while_old_upper (bound : datetime) timestamps :
  Forall (fun t => t <= bound) timestamps ->
  Forall (fun t => t <= bound) (popleft_while_old boundary timestamps).
Proof.
  induction 1 as [|t rest Hle Hall IH]; simpl; [constructor|].
  destruct (t <? boundary); [done | by constructor].
Qed.
End popleft.

Lemma popleft_while_old_twice (b1 b2 : datetime) (timestamps : list datetime) :
  b1 <= b2 ->
  popleft_while_old b2 (popleft_while_old b1 timestamps)
  = popleft_while_old b2 timestamps.
Proof.
  intros Hle. induction timestamps as [|t rest IH]; simpl; [done|].
  destruct (Z.ltb_spec t b1) as [Hlt|Hge].
  - rw IH. have -> : (t <? b2) = true by apply Z.ltb_lt; lia.
    done.
  - done.
Qed.

(** ** [should_rate_limit] in closed form *)

Lemma popleft_while_old_fresh boundary (timestamps : list datetime) :
  (forall t, head timestamps = Some t -> boundary <= t) ->
  popleft_while_old boundary timestamps = timestamps.
Proof.
  destruct timestamps as [|t rest]; [done|]. intros Hhead. simpl.
  have Hle : boundary <= t by apply Hhead.
  by destruct (Z.ltb_spec t boundary); [lia|].
Qed.

(** Every limiter that [__init__] builds is an [init], and [__init__] raises
    nothing but [OverflowError]. *)
Lemma init_built (window_minutes cap : Z) :
  match __init__ window_minutes cap with
  | Ok self => self = init window_minutes cap
  | Raise e => e = OverflowError
  end.
Proof.
  rw /__init__ /timedelta_of_minutes. by case_bool_decide.
Qed.

Lemma datetime_sub_ok (d : datetime) (delta : timedelta) :
  representable (d - delta) -> datetime_sub d delta = Ok (d - delta).
Proof. intros Hr. by rw /datetime_sub bool_decide_eq_true_2. Qed.

Lemma datetime_sub_overflow (d : datetime) (delta : timedelta) :
  ~ representable (d - delta) -> datetime_sub d delta = Raise OverflowError.
Proof. intros Hr. by rw /datetime_sub bool_decide_eq_false_2. Qed.

Lemma remove_old_records_eq now self :
  representable (now - rate_limit_window self) ->
  remove_old_records now self
  = (Ok tt,
     with_recorded self
       (popleft_while_old (now - rate_limit_window self) <$> recorded self)).
Proof.
  intros Hr. rw /remove_old_records /mbind /M_bind /lift /get_self.
  by rw datetime_sub_ok.
Qed.

Lemma remove_old_records_overflow now self :
  ~ representable (now - rate_limit_window self) ->
  remove_old_records now self = (Raise OverflowError, self).
Proof.
  intros Hr. rw /remove_old_records /mbind /M_bind /lift /get_self.
  by rw datetime_sub_overflow.
Qed.

Lemma should_rate_limit_raise event hint now self e :
  build_event_fingerprint event hint = Raise e ->
  should_rate_limit event hint now self = (Raise e, self).
Proof.
  intros Hfp. rw /should_rate_limit /mbind /M_bind /lift Hfp //.
Qed.

Lemma should_rate_limit_overflow event hint now self fingerprint :
  build_event_fingerprint event hint = Ok fingerprint ->
  ~ representable (now - rate_limit_window self) ->
  should_rate_limit event hint now self = (Raise OverflowError, self).
Proof.
  intros Hfp Hr. rw /should_rate_limit /mbind /M_bind /lift Hfp.
  by rw remove_old_records_overflow.
Qed.

Lemma should_rate_limit_ok event hint now self fingerprint :
  build_event_fingerprint event hint = Ok fingerprint ->
  representable (now - rate_limit_window self) ->
  let purged :=
    popleft_while_old (now - rate_limit_window self) <$> recorded self in
  let timestamps := default [] (purged !! fingerprint) in
  let drop_event :=
    bool_decide (rate_limit_number_of_events self
                 <= Z.of_nat (length timestamps)) in
  should_rate_limit event hint now self
  = (Ok drop_event,
     with_recorded self
       (<[fingerprint := if drop_event then timestamps
                         else timestamps ++ [now]]> purged)).
Proof.
  intros Hfp Hr purged timestamps drop_event.
  rw /should_rate_limit /mbind /M_bind /lift Hfp.
  rw remove_old_records_eq //.
  rw /recorded_getitem /mbind /M_bind /= -/purged.
  subst timestamps drop_event.
  destruct (purged !! fingerprint) as [ts|] eqn:Hlook; simpl.
  - destruct (bool_decide (_ <= _)); simpl.
    + by rw insert_id.
    + rw /with_recorded /=. f_equal. f_equal.
      apply map_eq; intros k. destruct (decide (fingerprint = k)) as [<-|Hne].
      * by rw lookup_alter_eq lookup_insert_eq Hlook.
      * by rw lookup_alter_ne // lookup_insert_ne.
  - destruct (bool_decide (_ <= _)); simpl; [done|].
    by rw /with_recorded /= alter_insert_eq.
Qed.

Lemma record_of_with_recorded self r fingerprint :
  record_of (with_recorded self r) fingerprint = default [] (r !! fingerprint).
Proof. reflexivity. Qed.

Lemma record_of_purged boundary self fingerprint :
  default [] ((popleft_while_old boundary <$> recorded self) !! fingerprint)
  = popleft_while_old boundary (record_of self fingerprint).
Proof.
  rw /record_of lookup_fmap. by destruct (recorded self !! fingerprint).
Qed.

Lemma record_step_fst cap window now timestamps :
  (record_step cap window now timestamps).1
  = bool_decide
      (cap <= Z.of_nat
                (length (popleft_while_old (now - window) timestamps))).
Proof. rw /record_step. by destruct (bool_decide _). Qed.

Lemma record_step_snd cap window now timestamps :
  (record_step cap window now timestamps).2
  = let purged := popleft_while_old (now - window) timestamps in
    if bool_decide (cap <= Z.of_nat (length purged)) then purged
    else purged ++ [now].
Proof. rw /record_step. by destruct (bool_decide _). Qed.

(** One successful call, seen from the records: the record of the call's
    fingerprint takes a [record_step], the others are purged. *)
Lemma should_rate_limit_records event hint now self fingerprint :
  build_event_fingerprint event hint = Ok fingerprint ->
  representable (now - rate_limit_window self) ->
  let next :=
    record_step (rate_limit_number_of_events self) (rate_limit_window self)
      now (record_of self fingerprint) in
  exists self',
    should_rate_limit event hint now self = (Ok next.1, self') /\
    rate_limit_window self' = rate_limit_window self /\
    rate_limit_number_of_events self' = rate_limit_number_of_events self /\
    recorded self' !! fingerprint = Some next.2 /\
    forall other, other <> fingerprint ->
      recorded self' !! other
      = popleft_while_old (now - rate_limit_window self)
          <$> recorded self !! other.
Proof.
  intros Hfp Hr next. rw (should_rate_limit_ok _ _ now self _ Hfp Hr).
  rw record_of_purged. subst next. rw record_step_fst record_step_snd.
  eexists; split; [reflexivity|].
  split; [done|split; [done|split]].
  - by rw /= lookup_insert_eq.
  - intros other Hne. rw /= lookup_insert_ne; [congruence|]. by rw lookup_fmap.
Qed.

(** A call either raises and leaves the limiter as it was, or its extraction
    succeeds and its boundary is a datetime. *)
Lemma should_rate_limit_cases event hint now self :
  (exists e, should_rate_limit event hint now self = (Raise e, self)) \/
  (exists fingerprint,
      build_event_fingerprint event hint = Ok fingerprint /\
      representable (now - rate_limit_window self)).
Proof.
  destruct (build_event_fingerprint event hint) as [fingerprint|e] eqn:Hfp.
  - destruct (decide (representable (now - rate_limit_window self)))
      as [Hr|Hr].
    + right. by exists fingerprint.
    + left. eexists. by apply (should_rate_limit_overflow _ _ _ _ _ Hfp).
  - left. exists e. by apply should_rate_limit_raise.
Qed.

Lemma step_config self c :
  rate_limit_window (step self c).2 = rate_limit_window self /\
  rate_limit_number_of_events (step self c).2
  = rate_limit_number_of_events self.
Proof.
  destruct c as [[event hint] now]. rw /step /=.
  destruct (should_rate_limit_cases event hint now self)
    as [[e ->]|(fingerprint & Hfp & Hr)]; [done|].
  by destruct (should_rate_limit_records _ _ now self _ Hfp Hr)
    as (self' & -> & Hw & Hc & _).
Qed.

Lemma run_cons self c calls :
  run self (c :: calls)
  = ((step self c).1 :: (run (step self c).2 calls).1,
     (run (step self c).2 calls).2).
Proof.
  cbn [run]. destruct (step self c) as [decision self'].
  cbn [fst snd]. by destruct (run self' calls).
Qed.

Lemma run_config self calls :
  rate_limit_window (run self calls).2 = rate_limit_window self /\
  rate_limit_number_of_events (run self calls).2
  = rate_limit_number_of_events self.
Proof.
  revert self. induction calls as [|c calls IH]; intros self; [done|].
  destruct (IH (step self c).2) as [Hw Hc].
  destruct (step_config self c) as [Hw' Hc'].
  rw run_cons. simpl. split; congruence.
Qed.

(** An invariant of the steps is an invariant of the runs. *)
Lemma run_invariant (P : PerProcessPerIssueEventLimiter -> Prop) :
  (forall self c, P self -> P (step self c).2) ->
  forall calls self, P self -> P (run self calls).2.
Proof.
  intros Hstep calls. induction calls as [|c calls IH]; intros self HP.
  - done.
  - rw run_cons /=. by apply IH, Hstep.
Qed.

Lemma popleft_while_old_filter boundary (timestamps : list datetime) :
  StronglySorted Z.le timestamps ->
  popleft_while_old boundary timestamps
  = List.filter (fun t => boundary <=? t) timestamps.
Proof.
  induction 1 as [|t rest Hs IH Hall]; [done|].
  cbn [popleft_while_old List.filter].
  destruct (Z.ltb_spec t boundary) as [Hlt|Hge].
  - by rw (proj2 (Z.leb_gt boundary t) Hlt).
  - rw (proj2 (Z.leb_le boundary t) Hge). f_equal.
    rw -IH popleft_while_old_fresh //.
    destruct Hall as [|t' rest' Ht' _]; [done|]. intros ? [= <-]. lia.
Qed.

(** The three ways a step can go when the record is either wholly inside or
    wholly outside the window. *)
Lemma record_step_admit cap window now (timestamps : list datetime) :
  (forall t, head timestamps = Some t -> now - window <= t) ->
  Z.of_nat (length timestamps) < cap ->
  record_step cap window now timestamps = (false, timestamps ++ [now]).
Proof.
  intros Hfresh Hlen. rw /record_step popleft_while_old_fresh //.
  by rw bool_decide_eq_false_2; [lia|].
Qed.

Lemma record_step_drop cap window now (timestamps : list datetime) :
  (forall t, head timestamps = Some t -> now - window <= t) ->
  cap <= Z.of_nat (length timestamps) ->
  record_step cap window now timestamps = (true, timestamps).
Proof.
  intros Hfresh Hlen. rw /record_step popleft_while_old_fresh //.
  by rw bool_decide_eq_true_2.
Qed.

Lemma record_step_expired cap window now (timestamps : list datetime) :
  Forall (fun t => t < now - window) timestamps ->
  0 < cap ->
  record_step cap window now timestamps = (false, [now]).
Proof.
  intros Hold Hcap. rw /record_step popleft_while_old_all_old //.
  by rw bool_decide_eq_false_2; [cbn [length]; lia|].
Qed.

(** ** The admission decision *)

(** C1 (amended): on a record ordered oldest first, when fingerprint
    extraction succeeds and [now - window] is a datetime, [should_rate_limit]
    purges the timestamps older than [now - window]; if the purged record
    holds at least [rate_limit_number_of_events] timestamps the call returns
    true and the record stays as purged, otherwise [now] is appended to it
    and the call returns false. *)
Theorem C1_should_rate_limit_decision event hint now self fingerprint :
  build_event_fingerprint event hint = Ok fingerprint ->
  representable (now - rate_limit_window self) ->
  StronglySorted Z.le (record_of self fingerprint) ->
  let boundary := now - rate_limit_window self in
  let purged :=
    List.filter (fun t => boundary <=? t) (record_of self fingerprint) in
  record_of (remove_old_records now self).2 fingerprint = purged /\
  exists self',
    rate_limit_window self' = rate_limit_window self /\
    rate_limit_number_of_events self' = rate_limit_number_of_events self /\
    if bool_decide (rate_limit_number_of_events self
                    <= Z.of_nat (length purged))
    then should_rate_limit event hint now self = (Ok true, self') /\
         recorded self' !! fingerprint = Some purged
    else should_rate_limit event hint now self = (Ok false, self') /\
         recorded self' !! fingerprint = Some (purged ++ [now]).
Proof.
  intros Hfp Hr Hsorted boundary purged.
  have Hpurged :
    popleft_while_old boundary (record_of self fingerprint) = purged
    by apply popleft_while_old_filter.
  split.
  - by rw remove_old_records_eq // /= record_of_with_recorded record_of_purged.
  - destruct (should_rate_limit_records _ _ now self _ Hfp Hr)
      as (self' & Hcall & Hw & Hc & Hrec & _).
    exists self'. split; [done|split; [done|]].
    move: Hcall Hrec. rw /record_step -/boundary Hpurged.
    by destruct (bool_decide _).
Qed.

Lemma should_rate_limit_record_of event hint now self fingerprint :
  build_event_fingerprint event hint = Ok fingerprint ->
  representable (now - rate_limit_window self) ->
  forall k,
    record_of (should_rate_limit event hint now self).2 k
    = if bool_decide (k = fingerprint)
      then (record_step (rate_limit_number_of_events self)
              (rate_limit_window self) now (record_of self fingerprint)).2
      else popleft_while_old (now - rate_limit_window self)
             (record_of self k).
Proof.
  intros Hfp Hr k.
  destruct (should_rate_limit_records _ _ now self _ Hfp Hr)
    as (self' & -> & _ & _ & Hrec & Hothers).
  rw /record_of /=. case_bool_decide as Hk.
  - subst k. by rw Hrec.
  - rw (Hothers k Hk). by destruct (recorded self !! k).
Qed.

(** A call that returns had a boundary that is a datetime. *)
Lemma should_rate_limit_returns event hint now self decision self' :
  should_rate_limit event hint now self = (Ok decision, self') ->
  exists fingerprint,
    build_event_fingerprint event hint = Ok fingerprint /\
    representable (now - rate_limit_window self).
Proof.
  intros Hcall.
  destruct (should_rate_limit_cases event hint now self)
    as [[e He]|Hok]; [|done].
  rw He in Hcall. discriminate Hcall.
Qed.

Lemma record_step_in_window cap window now (timestamps : list datetime) :
  StronglySorted Z.le timestamps ->
  Z.of_nat (length (List.filter (fun t => now - window <=? t) timestamps))
  < cap ->
  (record_step cap window now timestamps).1 = false.
Proof.
  intros Hsorted Hfew.
  rw record_step_fst popleft_while_old_filter //.
  apply bool_decide_eq_false. apply Z.lt_nge. exact Hfew.
Qed.

Lemma latest_is_latest (timestamps : list datetime) :
  Forall (fun t => t <= foldr Z.max 0 timestamps) timestamps.
Proof.
  induction timestamps as [|t ts IH]; [done|]. cbn [foldr].
  constructor; [lia|].
  eapply Forall_impl; [exact IH|]. intros t' Ht'. cbn in Ht'. lia.
Qed.

(** C3 (amended): with a positive cap an issue is never silenced for ever.
    A drop records nothing: the record of the dropped occurrence's
    fingerprint is the purged record, and every later call decides, and
    leaves the records, as if the dropped call had not been made.  On a
    record ordered oldest first the next occurrence is admitted as soon as
    fewer than the cap of its timestamps are inside the window; whatever the
    order, it is admitted, and the record restarts, once all its timestamps
    are older than the window, which is the case from some instant on. *)
Theorem C3_dropped_occurrences_do_not_count
    event hint now self fingerprint self1 :
  build_event_fingerprint event hint = Ok fingerprint ->
  should_rate_limit event hint now self = (Ok true, self1) ->
  0 < rate_limit_number_of_events self ->
  let window := rate_limit_window self in
  let cap := rate_limit_number_of_events self in
  recorded self1 !! fingerprint
  = Some (popleft_while_old (now - window) (record_of self fingerprint)) /\
  (forall event' hint' now' fingerprint',
      now <= now' ->
      build_event_fingerprint event' hint' = Ok fingerprint' ->
      representable (now' - window) ->
      (should_rate_limit event' hint' now' self1).1
      = (should_rate_limit event' hint' now' self).1 /\
      forall k,
        record_of (should_rate_limit event' hint' now' self1).2 k
        = record_of (should_rate_limit event' hint' now' self).2 k) /\
  (forall event' hint' now',
      build_event_fingerprint event' hint' = Ok fingerprint ->
      representable (now' - window) ->
      (StronglySorted Z.le (record_of self1 fingerprint) ->
       Z.of_nat (length (List.filter (fun t => now' - window <=? t)
                           (record_of self1 fingerprint))) < cap ->
       (should_rate_limit event' hint' now' self1).1 = Ok false) /\
      (Forall (fun t => t < now' - window) (record_of self1 fingerprint) ->
       (should_rate_limit event' hint' now' self1).1 = Ok false /\
       recorded (should_rate_limit event' hint' now' self1).2 !! fingerprint
       = Some [now'])) /\
  (exists quiet : datetime,
      forall now', quiet <= now' ->
        Forall (fun t => t < now' - window) (record_of self1 fingerprint)).
Proof.
  intros Hfp Hcall Hcap window cap.
  destruct (should_rate_limit_returns _ _ _ _ _ _ Hcall) as (fp & Hfp' & Hr).
  destruct (should_rate_limit_records _ _ now self _ Hfp Hr)
    as (self' & Hcall' & Hw & Hc & Hrec & Hothers).
  rw Hcall in Hcall'. injection Hcall' as Hdrop <-.
  have Hnext :
    (record_step cap window now (record_of self fingerprint)).2
    = popleft_while_old (now - window) (record_of self fingerprint).
  { move: Hdrop. rw /record_step. by destruct (bool_decide _). }
  have Hview : forall k,
    record_of self1 k = popleft_while_old (now - window) (record_of self k).
  { intros k. rw /record_of. destruct (decide (k = fingerprint)) as [->|Hk].
    - by rw Hrec /= Hnext.
    - rw (Hothers k Hk). by destruct (recorded self !! k). }
  split; [by rw Hrec Hnext|split; [|split]].
  - intros event' hint' now' fingerprint' Hlater Hfp2 Hr'.
    have Hr1 : representable (now' - rate_limit_window self1) by rw Hw.
    have Hpurge : forall k,
      popleft_while_old (now' - window) (record_of self1 k)
      = popleft_while_old (now' - window) (record_of self k).
    { intros k. rw Hview. apply popleft_while_old_twice. lia. }
    have Hstep :
      record_step cap window now' (record_of self1 fingerprint')
      = record_step cap window now' (record_of self fingerprint').
    { by rw /record_step Hpurge. }
    split.
    + destruct (should_rate_limit_records _ _ now' self1 _ Hfp2 Hr1)
        as (s1 & -> & _).
      destruct (should_rate_limit_records _ _ now' self _ Hfp2 Hr')
        as (s2 & -> & _).
      by rw /= Hw Hc Hstep.
    + intros k.
      rw (should_rate_limit_record_of _ _ _ _ _ Hfp2 Hr1).
      rw (should_rate_limit_record_of _ _ _ _ _ Hfp2 Hr') Hw Hc.
      case_bool_decide; [by rw Hstep | apply Hpurge].
  - intros event' hint' now' Hfp2 Hr'.
    have Hr1 : representable (now' - rate_limit_window self1) by rw Hw.
    destruct (should_rate_limit_records _ _ now' self1 _ Hfp2 Hr1)
      as (s1 & -> & _ & _ & Hrec1 & _).
    cbn [fst snd]. rw Hw Hc. split.
    + intros Hsorted Hfew. f_equal. by apply record_step_in_window.
    + intros Hold. rw Hrec1 Hw Hc record_step_expired //.
  - set (latest := foldr Z.max 0 (record_of self1 fingerprint)).
    exists (latest + window + 1). intros now' Hnow'.
    eapply Forall_impl; [apply latest_is_latest|].
    intros t Ht. cbn in Ht. rw /latest. lia.
Qed.

(** ** Records of the other fingerprints *)

(** C6 (amended): a call whose extraction succeeds and whose boundary
    [now - window] is a datetime purges the expired leading entries of every
    record, and does nothing else to the record of a fingerprint other than
    its own: such a record is left as it was when its oldest timestamp is
    inside the window, and no record is created or removed.  A call that
    raises changes nothing. *)
Theorem C6_other_records_only_purged event hint now self fingerprint other :
  build_event_fingerprint event hint = Ok fingerprint ->
  representable (now - rate_limit_window self) ->
  other <> fingerprint ->
  let self' := (should_rate_limit event hint now self).2 in
  let boundary := now - rate_limit_window self in
  recorded self' !! other
  = popleft_while_old boundary <$> recorded self !! other /\
  (forall timestamps,
      recorded self !! other = Some timestamps ->
      (forall t, head timestamps = Some t -> boundary <= t) ->
      recorded self' !! other = Some timestamps) /\
  (forall event' hint' now' e,
      (should_rate_limit event' hint' now' self).1 = Raise e ->
      (should_rate_limit event' hint' now' self).2 = self).
Proof.
  intros Hfp Hr Hne self' boundary.
  destruct (should_rate_limit_records _ _ now self _ Hfp Hr)
    as (s & Hcall & _ & _ & _ & Hothers).
  have -> : self' = s by rw /self' Hcall.
  split; [by apply Hothers|split].
  - intros timestamps Hlook Hfresh.
    by rw (Hothers other Hne) Hlook /= popleft_while_old_fresh.
  - intros event' hint' now' e.
    destruct (should_rate_limit_cases event' hint' now' self)
      as [[e' ->]|(fp & Hfp' & Hr')]; [done|].
    by destruct (should_rate_limit_records _ _ now' self _ Hfp' Hr')
      as (s' & -> & _).
Qed.

(** ** Invariants of the records *)

Lemma remove_old_records_bounded now self :
  bounded self -> bounded (remove_old_records now self).2.
Proof.
  intros Hb.
  destruct (decide (representable (now - rate_limit_window self)))
    as [Hr|Hr]; [|by rw remove_old_records_overflow].
  intros fingerprint timestamps.
  rw remove_old_records_eq // /= lookup_fmap.
  destruct (recorded self !! fingerprint) as [ts|] eqn:Hlook; [|done].
  intros [= <-]. specialize (Hb _ _ Hlook).
  have := popleft_while_old_length (now - rate_limit_window self) ts. lia.
Qed.

Lemma should_rate_limit_bounded event hint now self :
  0 <= rate_limit_number_of_events self ->
  bounded self -> bounded (should_rate_limit event hint now self).2.
Proof.
  intros Hcap Hb.
  destruct (should_rate_limit_cases event hint now self)
    as [[e ->]|(fingerprint & Hfp & Hr)]; [done|].
  destruct (should_rate_limit_records _ _ now self _ Hfp Hr)
    as (self' & -> & _ & Hc & Hrec & Hothers).
  intros k timestamps. rw /= Hc.
  destruct (decide (k = fingerprint)) as [->|Hk].
  - rw Hrec record_step_snd /=. intros [= <-].
    have Hlen := popleft_while_old_length (now - rate_limit_window self)
                   (record_of self fingerprint).
    have Hrecord : Z.of_nat (length (record_of self fingerprint))
                   <= rate_limit_number_of_events self.
    { rw /record_of. destruct (recorded self !! fingerprint) eqn:Hlook.
      - by apply (Hb _ _ Hlook).
      - simpl. lia. }
    case_bool_decide; [lia|]. rw length_app /=. lia.
  - rw (Hothers k Hk).
    destruct (recorded self !! k) as [ts|] eqn:Hlook; [|done].
    intros [= <-]. specialize (Hb _ _ Hlook).
    have := popleft_while_old_length (now - rate_limit_window self) ts. lia.
Qed.

(** C9: with a non-negative cap no record ever holds more than
    [rate_limit_number_of_events] timestamps: a new limiter has no record, the
    purge and the whole call preserve the bound, and so every limiter reached
    from a new one by any calls satisfies it. *)
Theorem C9_record_length_bounded (window_minutes cap : Z) :
  0 <= cap ->
  (forall fingerprint, record_of (init window_minutes cap) fingerprint = []) /\
  (forall self now,
      bounded self -> bounded (remove_old_records now self).2) /\
  (forall self event hint now,
      rate_limit_number_of_events self = cap ->
      bounded self -> bounded (should_rate_limit event hint now self).2) /\
  (forall calls, bounded (run (init window_minutes cap) calls).2).
Proof.
  intros Hcap. split; [done|split; [|split]].
  - intros self now. apply remove_old_records_bounded.
  - intros self event hint now Hc. apply should_rate_limit_bounded. by rw Hc.
  - intros calls.
    apply (run_invariant
             (fun self => rate_limit_number_of_events self = cap /\
                          bounded self)); [|done].
    intros self [[event hint] now] [Hc Hb]. split.
    + by rw (proj2 (step_config self (event, hint, now))).
    + apply should_rate_limit_bounded; [by rw Hc|done].
Qed.

Lemma step_ordered self c latest :
  time_ordered self -> not_after latest self -> latest <= call_now c ->
  time_ordered (step self c).2 /\ not_after (call_now c) (step self c).2.
Proof.
  destruct c as [[event hint] now]. rw /step /call_now /=.
  intros Hsorted Hlatest Hnow.
  have Hupper : not_after now self.
  { intros k ts Hlook. eapply Forall_impl; [by apply (Hlatest k)|].
    simpl. lia. }
  destruct (should_rate_limit_cases event hint now self)
    as [[e ->]|(fingerprint & Hfp & Hr)]; [done|].
  destruct (should_rate_limit_records _ _ now self _ Hfp Hr)
    as (self' & -> & _ & _ & Hrec & Hothers). simpl.
  set (boundary := now - rate_limit_window self) in *.
  have Hown : StronglySorted Z.le (record_of self fingerprint) /\
              Forall (fun t => t <= now) (record_of self fingerprint).
  { rw /record_of. destruct (recorded self !! fingerprint) eqn:Hlook.
    - split; [by apply (Hsorted _ _ Hlook) | by apply (Hupper _ _ Hlook)].
    - split; constructor. }
  destruct Hown as [Hown_sorted Hown_upper].
  have Hpurged_sorted := popleft_while_old_sorted boundary _ Hown_sorted.
  have Hpurged_upper := popleft_while_old_upper boundary now _ Hown_upper.
  split; intros k ts; (destruct (decide (k = fingerprint)) as [->|Hk];
    [rw Hrec record_step_snd /= -/boundary; intros [= <-]
    |rw (Hothers k Hk);
     destruct (recorded self !! k) as [ts0|] eqn:Hlook; [|done];
     intros [= <-]]).
  - case_bool_decide; [done|].
    apply StronglySorted_app. split; [|split; [done|]].
    + intros x1 x2 Hx1 Hx2. apply list_elem_of_singleton in Hx2 as ->.
      by apply (proj1 (Forall_forall _ _) Hpurged_upper).
    + repeat constructor.
  - apply popleft_while_old_sorted. by apply (Hsorted _ _ Hlook).
  - case_bool_decide; [done|].
    apply Forall_app. split; [done|]. constructor; [lia|constructor].
  - apply popleft_while_old_upper. by apply (Hupper _ _ Hlook).
Qed.

Lemma run_ordered calls : forall self latest,
  time_ordered self -> not_after latest self ->
  Forall (fun t => latest <= t) (call_now <$> calls) ->
  monotonic calls ->
  time_ordered (run self calls).2.
Proof.
  induction calls as [|c calls IH]; intros self latest Hsorted Hlatest Hge Hmono.
  - done.
  - rw run_cons /=.
    apply Forall_cons in Hge as [Hc _].
    apply StronglySorted_inv in Hmono as [Hmono Hrest].
    destruct (step_ordered self c latest Hsorted Hlatest Hc) as [Hs Hl].
    by apply (IH _ (call_now c)).
Qed.

Lemma remove_old_records_within_window now self :
  representable (now - rate_limit_window self) ->
  time_ordered self -> within_window now (remove_old_records now self).2.
Proof.
  intros Hr Hsorted k ts. rw remove_old_records_eq // /= lookup_fmap.
  destruct (recorded self !! k) as [ts0|] eqn:Hlook; [|done].
  intros [= <-]. apply popleft_while_old_retained. by apply (Hsorted _ _ Hlook).
Qed.

Lemma remove_old_records_ordered now self :
  time_ordered self -> time_ordered (remove_old_records now self).2.
Proof.
  intros Hsorted.
  destruct (decide (representable (now - rate_limit_window self)))
    as [Hr|Hr]; [|by rw remove_old_records_overflow].
  intros k ts. rw remove_old_records_eq // /= lookup_fmap.
  destruct (recorded self !! k) as [ts0|] eqn:Hlook; [|done].
  intros [= <-]. apply popleft_while_old_sorted. by apply (Hsorted _ _ Hlook).
Qed.

(** C7 (amended): when the clock readings of successive calls never decrease,
    every record of the limiter is ordered oldest first after any calls, a
    purge keeps it so, and every timestamp retained by a purge performed at
    [now], that is one whose boundary [now - window] is a datetime, is at
    least [now - window]. *)
Theorem C7_records_ordered_and_within_window
    (window_minutes cap : Z) (calls : list call) :
  monotonic calls ->
  let self := (run (init window_minutes cap) calls).2 in
  time_ordered self /\
  forall now,
    time_ordered (remove_old_records now self).2 /\
    (representable (now - rate_limit_window self) ->
     within_window now (remove_old_records now self).2).
Proof.
  intros Hmono self.
  have Hsorted : time_ordered self.
  { destruct calls as [|c calls]; [done|].
    apply (run_ordered _ _ (call_now c)); [done|done| |done].
    apply StronglySorted_inv in Hmono as [_ Hrest].
    constructor; [simpl; lia|done]. }
  split; [done|]. intros now. split.
  - by apply remove_old_records_ordered.
  - intros Hr. by apply remove_old_records_within_window.
Qed.

(** ** One fingerprint on its own *)

Lemma run_one_fingerprint event hint fingerprint :
  build_event_fingerprint event hint = Ok fingerprint ->
  forall times self,
    Forall (fun t => representable (t - rate_limit_window self)) times ->
    (run self ((fun t => (event, hint, t)) <$> times)).1
    = Ok <$> record_run (rate_limit_number_of_events self)
               (rate_limit_window self) (record_of self fingerprint) times.
Proof.
  intros Hfp times.
  induction times as [|now times IH]; intros self Htimes; [done|].
  apply Forall_cons in Htimes as [Hr Htimes].
  rw fmap_cons run_cons. cbn [fst snd record_run fmap list_fmap]. rw /step.
  cbn [fst snd].
  destruct (should_rate_limit_records _ _ now self _ Hfp Hr)
    as (self' & -> & Hw & Hc & Hrec & _).
  cbn [fst snd]. rw IH; [by rw Hw|]. rw Hw Hc. by rw /record_of Hrec.
Qed.

Lemma record_run_cons cap window timestamps now rest :
  record_run cap window timestamps (now :: rest)
  = (record_step cap window now timestamps).1
      :: record_run cap window (record_step cap window now timestamps).2 rest.
Proof. reflexivity. Qed.

(** Side conditions of the scenario: the oldest timestamp against the
    boundary, the length against the cap. *)
Ltac scenario_side :=
  rw /timedelta_minutes /timedelta_seconds;
  first
    [ by intros t; cbn [head]; intros [= <-]; lia
    | by intros t; cbn [head]
    | by repeat (constructor; [lia|]); constructor
    | cbn [length]; lia ].

(** C4 (amended): with a cap of 2 and a window of one minute, at any [t0]
    for which the boundaries of the scenario, from [t0 - 60s] to [t0 + 45s],
    are datetimes, the three occurrences of one fingerprint at [t0] are
    admitted, admitted, dropped; the two at [t0 + 61s] are admitted; the two
    at [t0 + 105s] are both dropped, the two timestamps of [t0 + 61s] being
    still inside the window that goes back to [t0 + 45s]. *)
Theorem C4_scenario_cap_two event hint fingerprint (t0 : datetime) :
  build_event_fingerprint event hint = Ok fingerprint ->
  representable (t0 - timedelta_minutes 1) ->
  representable (t0 + timedelta_seconds 45) ->
  (run (init 1 2) (scenario event hint t0)).1
  = Ok <$> [false; false; true; false; false; true; true].
Proof.
  intros Hfp Hfirst Hlast.
  have -> : scenario event hint t0
            = (fun t => (event, hint, t))
                <$> [t0; t0; t0; t0 + timedelta_seconds 61;
                     t0 + timedelta_seconds 61; t0 + timedelta_seconds 105;
                     t0 + timedelta_seconds 105] by reflexivity.
  rw (run_one_fingerprint _ _ _ Hfp).
  { rw /init. cbn [rate_limit_window].
    rw /representable /timedelta_minutes /timedelta_seconds in Hfirst Hlast |- *.
    repeat (apply List.Forall_cons; [lia|]). apply List.Forall_nil. }
  f_equal. rw /record_of /init. cbn [recorded rate_limit_window
                             rate_limit_number_of_events].
  rw lookup_empty. cbn [default].
  rw record_run_cons record_step_admit; [scenario_side..|]. cbn [fst snd app].
  rw record_run_cons record_step_admit; [scenario_side..|]. cbn [fst snd app].
  rw record_run_cons record_step_drop; [scenario_side..|]. cbn [fst snd app].
  rw record_run_cons record_step_expired; [scenario_side..|]. cbn [fst snd app].
  rw record_run_cons record_step_admit; [scenario_side..|]. cbn [fst snd app].
  rw record_run_cons record_step_drop; [scenario_side..|]. cbn [fst snd app].
  rw record_run_cons record_step_drop; [scenario_side..|]. cbn [fst snd app].
  reflexivity.
Qed.

(** ** The fail-open wrapper *)

(** C2: [before_send] never raises, whatever [should_rate_limit] does: when
    the call raises, exactly one warning is logged and the event is returned
    unchanged; when it returns true the result is [None]; when it returns
    false the event is returned unchanged.  On the malformed input
    [({}, {})] the limiter's own method raises, so one warning is logged and
    the event comes back. *)
Theorem C2_before_send_never_raises :
  (forall should_rate_limit event hint now self,
      exists ret self' logged,
        before_send_with should_rate_limit event hint now self
        = (Ok ret, self', logged) /\
        match should_rate_limit event hint now self with
        | (Raise e, s) =>
            ret = Some event /\ self' = s /\ length logged = 1%nat /\
            warning_exc_info <$> logged = [e]
        | (Ok true, s) => ret = None /\ self' = s /\ logged = []
        | (Ok false, s) => ret = Some event /\ self' = s /\ logged = []
        end) /\
  (forall event hint now self,
      exists ret self' logged,
        before_send event hint now self = (Ok ret, self', logged) /\
        (ret = None ->
         (should_rate_limit event hint now self).1 = Ok true)) /\
  (forall now self,
      exists warning,
        before_send empty_event empty_hint now self
        = (Ok (Some empty_event), self, [warning]) /\
        warning_exc_info warning = UnsupportedShape).
Proof.
  split; [|split].
  - intros srl event hint now self. rw /before_send_with.
    destruct (srl event hint now self) as [[[|]|e] s]; by repeat eexists.
  - intros event hint now self. rw /before_send /before_send_with.
    destruct (should_rate_limit event hint now self) as [[[|]|e] s];
      by repeat eexists.
  - intros now self. eexists. split; reflexivity.
Qed.

(** ** The fingerprint extractor *)

Lemma build_event_fingerprint_dispatch event hint :
  build_event_fingerprint event hint
  = match exc_info hint, threads event, log_record hint with
    | Some _, _, _ => _fingerprint_from_exc_info hint
    | None, Some _, _ => _fingerprint_from_threads event
    | None, None, Some _ => _fingerprint_from_log_record hint
    | None, None, None => Raise UnsupportedShape
    end.
Proof.
  rw /build_event_fingerprint.
  by destruct (exc_info hint), (threads event), (log_record hint).
Qed.

Lemma frame_text_raise frame e :
  frame_text frame = Raise e ->
  e = KeyError "abs_path" \/ e = KeyError "lineno".
Proof.
  rw /frame_text. destruct (Frame.abs_path frame) as [abs_path|].
  - destruct (Frame.lineno frame) as [lineno|]; [done|].
    intros [= <-]. by right.
  - intros [= <-]. by left.
Qed.

Lemma comprehension_cons {A B : Type} (f : A -> result B) x rest :
  comprehension f (x :: rest)
  = match f x with
    | Ok y =>
        match comprehension f rest with
        | Ok ys => Ok (y :: ys)
        | Raise e => Raise e
        end
    | Raise e => Raise e
    end.
Proof. reflexivity. Qed.

Lemma comprehension_frame_text_raise frames e :
  comprehension frame_text frames = Raise e ->
  e = KeyError "abs_path" \/ e = KeyError "lineno".
Proof.
  induction frames as [|frame frames IH]; [done|]. rw comprehension_cons.
  destruct (frame_text frame) as [line|e0] eqn:Hframe.
  - destruct (comprehension frame_text frames) as [lines|e1]; [done|].
    intros [= <-]. by apply IH.
  - intros [= <-]. by apply (frame_text_raise frame).
Qed.

(** The exceptions of the thread fallback: the refusal of several threads, or
    a missing index or key. *)
Lemma fingerprint_from_threads_raise event th e :
  threads event = Some th ->
  _fingerprint_from_threads event = Raise e ->
  ((1 < length (values th))%nat /\ e = AmbiguousMultiThread (values th)) \/
  ((length (values th) <= 1)%nat /\
   (e = IndexError \/ exists key, e = KeyError key)).
Proof.
  intros Hth. rw /_fingerprint_from_threads Hth.
  case_bool_decide as Hmany.
  - intros [= <-]. by left.
  - intros Hraise. right. split; [lia|].
    destruct (values th) as [|thread rest]; cbn in Hraise.
    + injection Hraise as <-. by left.
    + right. destruct (Thread.stacktrace thread) as [[[frames|]]|];
        cbn in Hraise.
      * rw /mbind /result_bind in Hraise.
        destruct (comprehension frame_text frames) as [lines|e'] eqn:Hc;
          [done|]. injection Hraise as <-.
        destruct (comprehension_frame_text_raise _ _ Hc) as [->| ->];
          by eexists.
      * injection Hraise as <-. by eexists.
      * injection Hraise as <-. by eexists.
Qed.

(** C5: the shapes are tried in a fixed order, the first present one wins:
    the traceback of the hint, then the threads of the event, then the log
    record of the hint.  The extractor fails with [UnsupportedShape] exactly
    when none of the three is present, and with [AmbiguousMultiThread]
    exactly when the hint has no traceback and the event carries more than
    one thread entry. *)
Theorem C5_resolution_order event hint :
  (forall info, exc_info hint = Some info ->
     build_event_fingerprint event hint = _fingerprint_from_exc_info hint /\
     exists fingerprint, build_event_fingerprint event hint = Ok fingerprint) /\
  (forall th, exc_info hint = None -> threads event = Some th ->
     build_event_fingerprint event hint = _fingerprint_from_threads event) /\
  (forall r, exc_info hint = None -> threads event = None ->
     log_record hint = Some r ->
     build_event_fingerprint event hint = _fingerprint_from_log_record hint /\
     exists fingerprint, build_event_fingerprint event hint = Ok fingerprint) /\
  (build_event_fingerprint event hint = Raise UnsupportedShape <->
     exc_info hint = None /\ threads event = None /\
     log_record hint = None) /\
  (forall vs,
     build_event_fingerprint event hint = Raise (AmbiguousMultiThread vs) <->
     exc_info hint = None /\ threads event = Some {| values := vs |} /\
     (1 < length vs)%nat).
Proof.
  rw build_event_fingerprint_dispatch.
  split; [|split; [|split; [|split]]].
  - intros info Hexc. rw Hexc. split; [done|].
    rw /_fingerprint_from_exc_info Hexc. by eexists.
  - intros th Hexc Hth. by rw Hexc Hth.
  - intros r Hexc Hth Hlog. rw Hexc Hth Hlog. split; [done|].
    rw /_fingerprint_from_log_record Hlog. by eexists.
  - destruct (exc_info hint) as [info|] eqn:Hexc.
    { rw /_fingerprint_from_exc_info Hexc. split; [done|]. by intros [[=] _]. }
    destruct (threads event) as [th|] eqn:Hth.
    { split; [|by intros (_ & [=] & _)]. intros Hraise.
      destruct (fingerprint_from_threads_raise _ _ _ Hth Hraise)
        as [[_ [=]]|[_ [[=]|[key [=]]]]]. }
    destruct (log_record hint) as [r|] eqn:Hlog; [|done].
    rw /_fingerprint_from_log_record Hlog. split; [done|].
    by intros (_ & _ & [=]).
  - intros vs. destruct (exc_info hint) as [info|] eqn:Hexc.
    { rw /_fingerprint_from_exc_info Hexc. split; [done|]. by intros [[=] _]. }
    destruct (threads event) as [th|] eqn:Hth.
    + split.
      * intros Hraise.
        destruct (fingerprint_from_threads_raise _ _ _ Hth Hraise)
          as [[Hmany [= ->]]|[_ [[=]|[key [=]]]]].
        destruct th as [vs']. by cbn in *.
      * intros (_ & [= ->] & Hmany).
        rw /_fingerprint_from_threads Hth. cbn [values].
        by rw bool_decide_eq_true_2.
    + split; [|by intros (_ & [=] & _)].
      destruct (log_record hint) as [r|] eqn:Hlog; [|done].
      by rw /_fingerprint_from_log_record Hlog.
Qed.

(** C10: an event with a ["threads"] key whose ["values"] list is empty, and
    a hint without ["exc_info"], makes [build_event_fingerprint] raise the
    [IndexError] of [values[0]], which is neither of the two typed
    failures. *)
Theorem C10_empty_threads_index_error event hint :
  exc_info hint = None ->
  threads event = Some {| values := [] |} ->
  build_event_fingerprint event hint = Raise IndexError /\
  IndexError <> UnsupportedShape /\
  forall vs, IndexError <> AmbiguousMultiThread vs.
Proof.
  intros Hexc Hthreads.
  by rw /build_event_fingerprint /_fingerprint_from_threads Hexc Hthreads.
Qed.

(** ** Fingerprints and call sites *)

Lemma contains_app c (a b : string) :
  contains c (a +:+ b) = contains c a || contains c b.
Proof.
  induction a as [|c' a IH]; simpl; [done|]. by rw IH orb_assoc.
Qed.

Lemma contains_cons_same c (s : string) : contains c (String c s) = true.
Proof. by rw /= Ascii.eqb_refl. Qed.

(** Splitting at the first occurrence of a separator. *)
Lemma split_first c (a a' b b' : string) :
  contains c a = false -> contains c a' = false ->
  a +:+ String c b = a' +:+ String c b' -> a = a' /\ b = b'.
Proof.
  revert a'. induction a as [|x a IH]; intros [|x' a'] Ha Ha'; simpl.
  - by intros [= ->].
  - intros [= <- _]. by rw /= Ascii.eqb_refl in Ha'.
  - intros [= -> _]. by rw /= Ascii.eqb_refl in Ha.
  - intros [= -> Heq]. simpl in Ha, Ha'.
    apply orb_false_elim in Ha as [_ Ha]. apply orb_false_elim in Ha' as [_ Ha'].
    by destruct (IH a' Ha Ha' Heq) as [-> ->].
Qed.

(** Splitting at the last occurrence of a separator. *)
Lemma split_last c (a a' b b' : string) :
  contains c b = false -> contains c b' = false ->
  a +:+ String c b = a' +:+ String c b' -> a = a' /\ b = b'.
Proof.
  intros Hb Hb'. revert a'.
  induction a as [|x a IH]; intros [|x' a']; simpl.
  - by intros [= ->].
  - intros [= _ ->]. by rw contains_app contains_cons_same orb_true_r in Hb.
  - intros [= _ <-]. by rw contains_app contains_cons_same orb_true_r in Hb'.
  - intros [= -> Heq]. by destruct (IH a' Heq) as [-> ->].
Qed.

Lemma contains_pretty_N_go c x (s : string) :
  (forall n, c <> pretty_N_char n) ->
  contains c (pretty_N_go x s) = contains c s.
Proof.
  intros Hc. revert s. induction (N.lt_wf_0 x) as [x _ IH]; intros s.
  destruct (decide (0 < x)%N) as [Hpos|Hzero].
  - rw (pretty_N_go_step x s Hpos) IH; [by apply N.div_lt|].
    rw /=. have -> : Ascii.eqb c (pretty_N_char (x `mod` 10)) = false; [|done].
    apply Ascii.eqb_neq, Hc.
  - have -> : x = 0%N by lia. by rw pretty_N_go_0.
Qed.

Lemma contains_pretty_Z c (z : Z) :
  (forall n, c <> pretty_N_char n) -> c <> "-"%char ->
  contains c (pretty z) = false.
Proof.
  intros Hc Hdash.
  have Hpos : forall p : positive, contains c (pretty p) = false.
  { intros p. rw /pretty /pretty_positive /pretty /pretty_N.
    case_decide; [done|]. by rw contains_pretty_N_go. }
  destruct z as [|p|p]; rw /pretty /pretty_Z.
  - rw /=. have -> : Ascii.eqb c "0" = false; [|done].
    apply Ascii.eqb_neq, (Hc 0%N).
  - apply Hpos.
  - rw contains_app Hpos /=.
    have -> : Ascii.eqb c "-" = false by apply Ascii.eqb_neq. done.
Qed.

Lemma not_a_digit c :
  (c = ":" \/ c = "010")%char -> forall n, c <> pretty_N_char n.
Proof.
  intros [-> | ->] n; rw /pretty_N_char; by repeat case_match.
Qed.

Lemma site_line_inj p q : site_line p = site_line q -> p = q.
Proof.
  destruct p as [f l], q as [f' l']. rw /site_line /=. intros Heq.
  apply split_last in Heq as [-> Hl].
  - by apply (inj pretty) in Hl as ->.
  - apply contains_pretty_Z; [apply not_a_digit; by left|done].
  - apply contains_pretty_Z; [apply not_a_digit; by left|done].
Qed.

Lemma site_line_newline_free p :
  contains "010"%char p.1 = false -> contains "010"%char (site_line p) = false.
Proof.
  intros Hp. rw /site_line !contains_app Hp /=.
  apply contains_pretty_Z; [apply not_a_digit; by right|done].
Qed.

Lemma site_line_not_empty p : site_line p <> "".
Proof.
  rw /site_line. destruct p as [[|c f] l]; simpl; discriminate.
Qed.

Lemma join_newline_cons x y rest :
  join newline (x :: y :: rest)
  = x +:+ String "010"%char (join newline (y :: rest)).
Proof. reflexivity. Qed.

Lemma site_text_inj site1 site2 :
  newline_free site1 -> newline_free site2 ->
  site_text site1 = site_text site2 -> site1 = site2.
Proof.
  rw /site_text /newline_free. revert site2.
  induction site1 as [|p [|p' site1] IH]; intros [|q [|q' site2]] H1 H2;
    rw ?fmap_cons; try rw !join_newline_cons; try done.
  - simpl. intros Heq. by destruct (site_line_not_empty q).
  - intros Heq. symmetry in Heq. revert Heq. simpl.
    destruct (site_line q) eqn:Hq; [by destruct (site_line_not_empty q)|done].
  - simpl. intros Heq. by destruct (site_line_not_empty p).
  - simpl. intros Heq. by apply site_line_inj in Heq as ->.
  - simpl. intros Heq.
    apply Forall_cons in H1 as [Hp _].
    apply site_line_newline_free in Hp.
    by rw Heq contains_app contains_cons_same orb_true_r in Hp.
  - intros Heq. symmetry in Heq. revert Heq. simpl.
    destruct (site_line p) eqn:Hp; [by destruct (site_line_not_empty p)|done].
  - simpl. intros Heq.
    apply Forall_cons in H2 as [Hq _].
    apply site_line_newline_free in Hq.
    by rw -Heq contains_app contains_cons_same orb_true_r in Hq.
  - intros Heq.
    apply Forall_cons in H1 as [Hp H1]. apply Forall_cons in H2 as [Hq H2].
    apply split_first in Heq as [Hline Hrest];
      [|by apply site_line_newline_free..].
    apply site_line_inj in Hline as ->. f_equal.
    apply IH; [done|done|]. by rw !fmap_cons.
Qed.

(** Frames that all have a path and a line render to the lines of their
    call site. *)
Lemma frames_site_text frames site :
  frames_site frames = Some site ->
  comprehension frame_text frames = Ok (site_line <$> site).
Proof.
  revert site. induction frames as [|frame frames IH]; intros site.
  { by intros [= <-]. }
  cbn [frames_site]. rw comprehension_cons /frame_pair /frame_text.
  destruct (Frame.abs_path frame) as [abs_path|]; [|done].
  destruct (Frame.lineno frame) as [lineno|]; [|done].
  destruct (frames_site frames) as [rest|]; [|done].
  intros [= <-]. by rw (IH rest).
Qed.

(** A capture in one of the two stack shapes has the text of its call site
    as fingerprint. *)
Lemma site_fingerprint event hint site :
  site_of event hint = Some site ->
  build_event_fingerprint event hint = Ok (site_text site).
Proof.
  rw /site_of /build_event_fingerprint /_fingerprint_from_exc_info
     /_fingerprint_from_threads.
  destruct (exc_info hint) as [info|]; simpl.
  - intros [= <-]. rw /site_text /traceback_site /extract_tb.
    do 2 f_equal. induction (exc_tb info) as [|n tb IH]; [done|].
    cbn [map fmap list_fmap]. by rw IH.
  - destruct (threads event) as [[[|[id stacktrace] [|]]]|]; simpl; try done.
    destruct stacktrace as [[[frames|]]|]; simpl; try done.
    intros Hsite. by rw (frames_site_text _ _ Hsite).
Qed.

(** C8 (amended): the fingerprint of a capture in one of the two stack shapes
    is a function of its (file, line) sequence: two captures with the same
    sequence have the same fingerprint, whatever else their frames carry; and
    two captures whose sequences differ have different fingerprints provided
    no file name contains a newline. *)
Theorem C8_fingerprint_of_call_site event1 hint1 event2 hint2 site1 site2 :
  site_of event1 hint1 = Some site1 ->
  site_of event2 hint2 = Some site2 ->
  (site1 = site2 ->
   build_event_fingerprint event1 hint1
   = build_event_fingerprint event2 hint2) /\
  (newline_free site1 -> newline_free site2 -> site1 <> site2 ->
   build_event_fingerprint event1 hint1
   <> build_event_fingerprint event2 hint2) /\
  exists fingerprint, build_event_fingerprint event1 hint1 = Ok fingerprint.
Proof.
  intros H1 H2.
  rw (site_fingerprint _ _ _ H1) (site_fingerprint _ _ _ H2).
  split; [by intros ->|split; [|by eexists]].
  intros Hfree1 Hfree2 Hne [= Heq]. by apply Hne, site_text_inj.
Qed.

(** * Concrete instances *)

Lemma C1_should_rate_limit_decision_witness :
  build_event_fingerprint empty_event sample_hint = Ok sample_fingerprint /\
  representable (t0_sample - rate_limit_window cap_reached) /\
  StronglySorted Z.le (record_of cap_reached sample_fingerprint) /\
  exists self',
    should_rate_limit empty_event sample_hint t0_sample cap_reached
    = (Ok false, self') /\
    recorded self' !! sample_fingerprint = Some [t0_sample].
Proof.
  have Hr : representable (t0_sample - rate_limit_window cap_reached).
  { rw /representable. split; by vm_compute. }
  have Hsorted : StronglySorted Z.le (record_of cap_reached sample_fingerprint).
  { have -> : record_of cap_reached sample_fingerprint = [0; 0] by vm_compute.
    repeat (apply SSorted_cons;
            [|repeat (apply List.Forall_cons; [lia|]); apply List.Forall_nil]).
    apply SSorted_nil. }
  split; [reflexivity|split; [exact Hr|split; [exact Hsorted|]]].
  destruct (C1_should_rate_limit_decision empty_event sample_hint t0_sample
              cap_reached sample_fingerprint eq_refl Hr Hsorted)
    as [_ (self' & _ & _ & H)].
  exists self'. exact H.
Defined.

(** C1, as stated, fails on two inputs.  After readings of 10 and then 5
    minutes, a call at 8 minutes with a window of 1 minute and a cap of 2
    finds one timestamp, 5 minutes, older than [now - window]; without it the
    record holds one timestamp, fewer than the cap, yet the call returns true:
    the purge stops at the leading 10 minutes and both timestamps count.  And
    with a window of 2000000000 minutes, which [__init__] accepts, the call
    raises [OverflowError] from [now - window] and neither admits nor
    drops. *)
Lemma C1_counterexample :
  let self := (run (init 1 2) (clock_went_back empty_event sample_hint)).2 in
  let now := timedelta_minutes 8 in
  let wide := init 2000000000 2 in
  (build_event_fingerprint empty_event sample_hint = Ok sample_fingerprint /\
   recorded self !! sample_fingerprint
   = Some [timedelta_minutes 10; timedelta_minutes 5] /\
   List.filter (fun t => now - rate_limit_window self <=? t)
     [timedelta_minutes 10; timedelta_minutes 5]
   = [timedelta_minutes 10] /\
   rate_limit_number_of_events self = 2 /\
   (should_rate_limit empty_event sample_hint now self).1 = Ok true /\
   recorded (should_rate_limit empty_event sample_hint now self).2
     !! sample_fingerprint
   = Some [timedelta_minutes 10; timedelta_minutes 5]) /\
  (__init__ 2000000000 2 = Ok wide /\
   should_rate_limit empty_event sample_hint t0_sample wide
   = (Raise OverflowError, wide)).
Proof.
  repeat split; by vm_compute.
Qed.

Lemma C3_dropped_occurrences_do_not_count_witness :
  let self1 := (should_rate_limit empty_event sample_hint 0 cap_reached).2 in
  let later := timedelta_minutes 2 in
  build_event_fingerprint empty_event sample_hint = Ok sample_fingerprint /\
  should_rate_limit empty_event sample_hint 0 cap_reached = (Ok true, self1) /\
  0 < rate_limit_number_of_events cap_reached /\
  representable (later - rate_limit_window cap_reached) /\
  Forall (fun t => t < later - rate_limit_window cap_reached)
    (record_of self1 sample_fingerprint) /\
  (should_rate_limit empty_event sample_hint later self1).1 = Ok false /\
  recorded (should_rate_limit empty_event sample_hint later self1).2
    !! sample_fingerprint
  = Some [later].
Proof.
  intros self1 later.
  have Hfp : build_event_fingerprint empty_event sample_hint
             = Ok sample_fingerprint := eq_refl.
  have Hcall : should_rate_limit empty_event sample_hint 0 cap_reached
               = (Ok true, self1) := eq_refl.
  have Hcap : 0 < rate_limit_number_of_events cap_reached by vm_compute.
  have Hr : representable (later - rate_limit_window cap_reached).
  { rw /representable. split; by vm_compute. }
  have Hold : Forall (fun t => t < later - rate_limit_window cap_reached)
                (record_of self1 sample_fingerprint).
  { have -> : record_of self1 sample_fingerprint = [0; 0] by vm_compute.
    repeat (apply List.Forall_cons; [by vm_compute|]). apply List.Forall_nil. }
  split; [exact Hfp|split; [exact Hcall|split; [exact Hcap|]]].
  split; [exact Hr|split; [exact Hold|]].
  destruct (C3_dropped_occurrences_do_not_count empty_event sample_hint 0
              cap_reached sample_fingerprint self1 Hfp Hcall Hcap)
    as (_ & _ & Hnext & _).
  exact (proj2 (Hnext empty_event sample_hint later Hfp Hr) Hold).
Defined.

(** C3, as stated, fails: with a cap of 0 the first occurrence is dropped and
    so is every later one, whatever the time of the call, although no
    timestamp is left in the record; the issue is silenced for good. *)
Lemma C3_counterexample :
  let calls :=
    [ (empty_event, sample_hint, 0);
      (empty_event, sample_hint, timedelta_minutes 10);
      (empty_event, sample_hint, t0_sample) ] in
  __init__ 1 0 = Ok (init 1 0) /\
  build_event_fingerprint empty_event sample_hint = Ok sample_fingerprint /\
  (run (init 1 0) calls).1 = [Ok true; Ok true; Ok true] /\
  recorded (run (init 1 0) calls).2 !! sample_fingerprint = Some [] /\
  (should_rate_limit empty_event sample_hint (t0_sample + timedelta_minutes 10)
     (run (init 1 0) calls).2).1
  = Ok true.
Proof.
  repeat split; by vm_compute.
Qed.

Lemma C4_scenario_cap_two_witness :
  build_event_fingerprint empty_event sample_hint = Ok sample_fingerprint /\
  representable (t0_sample - timedelta_minutes 1) /\
  representable (t0_sample + timedelta_seconds 45) /\
  (run (init 1 2) (scenario empty_event sample_hint t0_sample)).1
  = Ok <$> [false; false; true; false; false; true; true].
Proof.
  have Hfirst : representable (t0_sample - timedelta_minutes 1).
  { rw /representable. split; by vm_compute. }
  have Hlast : representable (t0_sample + timedelta_seconds 45).
  { rw /representable. split; by vm_compute. }
  split; [reflexivity|split; [exact Hfirst|split; [exact Hlast|]]].
  exact (C4_scenario_cap_two empty_event sample_hint sample_fingerprint
           t0_sample eq_refl Hfirst Hlast).
Defined.

(** C4, as stated, fails: the sixth occurrence, at [t0 + 105s], is dropped,
    not admitted. *)
Lemma C4_counterexample :
  (run (init 1 2) (scenario empty_event sample_hint t0_sample)).1
  <> Ok <$> [false; false; true; false; false; false; true] /\
  (run (init 1 2) (scenario empty_event sample_hint t0_sample)).1 !! 5%nat
  = Some (Ok true).
Proof.
  split; [|by vm_compute]. intros H. vm_compute in H. discriminate H.
Qed.

Lemma C6_other_records_only_purged_witness :
  build_event_fingerprint empty_event sample_hint = Ok sample_fingerprint /\
  representable (timedelta_minutes 2 - rate_limit_window other_seen) /\
  other_fingerprint <> sample_fingerprint /\
  recorded
    (should_rate_limit empty_event sample_hint (timedelta_minutes 2)
       other_seen).2 !! other_fingerprint
  = popleft_while_old (timedelta_minutes 2 - rate_limit_window other_seen)
      <$> recorded other_seen !! other_fingerprint.
Proof.
  have Hr : representable (timedelta_minutes 2 - rate_limit_window other_seen).
  { rw /representable. split; by vm_compute. }
  have Hne : other_fingerprint <> sample_fingerprint by discriminate.
  split; [reflexivity|split; [exact Hr|split; [exact Hne|]]].
  exact (proj1 (C6_other_records_only_purged empty_event sample_hint
                  (timedelta_minutes 2) other_seen sample_fingerprint
                  other_fingerprint eq_refl Hr Hne)).
Defined.

(** C6, as stated, fails: a call for one fingerprint empties the record of
    another one whose only timestamp has left the window. *)
Lemma C6_counterexample :
  let self' :=
    (should_rate_limit empty_event sample_hint (timedelta_minutes 2)
       other_seen).2 in
  build_event_fingerprint empty_event sample_hint = Ok sample_fingerprint /\
  other_fingerprint <> sample_fingerprint /\
  recorded other_seen !! other_fingerprint = Some [0] /\
  recorded self' !! other_fingerprint = Some [] /\
  recorded self' !! other_fingerprint
  <> recorded other_seen !! other_fingerprint.
Proof.
  split; [reflexivity|split; [discriminate|]].
  split; [by vm_compute|split; [by vm_compute|]].
  intros H. vm_compute in H. discriminate H.
Qed.

Lemma C7_records_ordered_and_within_window_witness :
  monotonic (scenario empty_event sample_hint t0_sample) /\
  time_ordered
    (run (init 1 2) (scenario empty_event sample_hint t0_sample)).2.
Proof.
  have Hmono : monotonic (scenario empty_event sample_hint t0_sample).
  { rw /monotonic /scenario /call_now /t0_sample /timedelta_seconds.
    cbn [fmap list_fmap snd].
    repeat (apply SSorted_cons;
            [|repeat (apply Forall_cons; split; [lia|]); by apply Forall_nil]).
    apply SSorted_nil. }
  split; [exact Hmono|].
  exact (proj1 (C7_records_ordered_and_within_window 1 2 _ Hmono)).
Defined.

(** C7, as stated, fails when the clock goes back: the purge stops at the
    first timestamp inside the window and retains an older one behind it. *)
Lemma C7_counterexample :
  let self := (run (init 1 2) (clock_went_back empty_event sample_hint)).2 in
  let purged := (remove_old_records (timedelta_minutes 8) self).2 in
  recorded purged !! sample_fingerprint
  = Some [timedelta_minutes 10; timedelta_minutes 5] /\
  timedelta_minutes 5 < timedelta_minutes 8 - rate_limit_window purged /\
  ~ within_window (timedelta_minutes 8) purged.
Proof.
  intros self purged.
  have Hrec : recorded purged !! sample_fingerprint
              = Some [timedelta_minutes 10; timedelta_minutes 5]
    by vm_compute.
  split; [exact Hrec|split; [by vm_compute|]].
  intros Hwithin. specialize (Hwithin _ _ Hrec).
  apply Forall_cons in Hwithin as [_ Hwithin].
  apply Forall_cons in Hwithin as [Hle _].
  vm_compute in Hle. by apply Hle.
Qed.

Lemma C8_fingerprint_of_call_site_witness :
  site_of empty_event (exception_hint site_traceback) = Some [("a.py", 1)] /\
  site_of (thread_event site_frames) empty_hint = Some [("a.py", 1)] /\
  build_event_fingerprint empty_event (exception_hint site_traceback)
  = build_event_fingerprint (thread_event site_frames) empty_hint.
Proof.
  split; [reflexivity|split; [reflexivity|]].
  exact (proj1 (C8_fingerprint_of_call_site
                  empty_event (exception_hint site_traceback)
                  (thread_event site_frames) empty_hint
                  [("a.py", 1)] [("a.py", 1)] eq_refl eq_refl) eq_refl).
Defined.

(** C8, as stated, fails: two frames and a single frame whose file name
    holds a newline are different (file, line) sequences with the same
    fingerprint. *)
Lemma C8_counterexample :
  site_of (thread_event two_frames) empty_hint
  = Some [("a.py", 1); ("b.py", 2)] /\
  site_of (thread_event merged_frame) empty_hint
  = Some [("a.py:1" +:+ newline +:+ "b.py", 2)] /\
  [("a.py", 1); ("b.py", 2)] <> [("a.py:1" +:+ newline +:+ "b.py", 2)] /\
  build_event_fingerprint (thread_event two_frames) empty_hint
  = build_event_fingerprint (thread_event merged_frame) empty_hint.
Proof.
  split; [reflexivity|split; [reflexivity|split; [discriminate|]]].
  by vm_compute.
Qed.

Lemma C9_record_length_bounded_witness :
  0 <= 2 /\
  bounded (run (init 1 2) (scenario empty_event sample_hint t0_sample)).2.
Proof.
  have Hcap : 0 <= 2 by lia.
  split; [exact Hcap|].
  exact (proj2 (proj2 (proj2 (C9_record_length_bounded 1 2 Hcap))) _).
Defined.

Lemma C10_empty_threads_index_error_witness :
  exc_info empty_hint = None /\
  threads no_thread_event = Some {| values := [] |} /\
  build_event_fingerprint no_thread_event empty_hint = Raise IndexError.
Proof.
  split; [reflexivity|split; [reflexivity|]].
  exact (proj1 (C10_empty_threads_index_error no_thread_event empty_hint
                  eq_refl eq_refl)).
Defined.

(** * Further properties of the limiter *)

(** One step of a run: it raises and leaves the limiter as it was, or its
    extraction succeeds and its boundary is a datetime. *)
Lemma step_raise self c e :
  build_event_fingerprint c.1.1 c.1.2 = Raise e -> step self c = (Raise e, self).
Proof. intros Hfp. by rw /step (should_rate_limit_raise _ _ _ _ _ Hfp). Qed.

Lemma step_cases self c :
  (exists e, step self c = (Raise e, self)) \/
  (exists fingerprint,
      build_event_fingerprint c.1.1 c.1.2 = Ok fingerprint /\
      representable (c.2 - rate_limit_window self)).
Proof. apply should_rate_limit_cases. Qed.

Lemma step_ok self c fingerprint :
  build_event_fingerprint c.1.1 c.1.2 = Ok fingerprint ->
  representable (c.2 - rate_limit_window self) ->
  let next :=
    record_step (rate_limit_number_of_events self) (rate_limit_window self)
      c.2 (record_of self fingerprint) in
  (step self c).1 = Ok next.1 /\
  forall k,
    record_of (step self c).2 k
    = if bool_decide (k = fingerprint) then next.2
      else popleft_while_old (c.2 - rate_limit_window self) (record_of self k).
Proof.
  intros Hfp Hr next. split.
  - rw /step.
    destruct (should_rate_limit_records _ _ c.2 self _ Hfp Hr)
      as (self' & Hcall & _).
    by rw Hcall.
  - intros k. by rw /step (should_rate_limit_record_of _ _ _ _ _ Hfp Hr).
Qed.

Lemma fingerprint_is_ok fingerprint c fp :
  build_event_fingerprint c.1.1 c.1.2 = Ok fp ->
  fingerprint_is fingerprint c = bool_decide (fp = fingerprint).
Proof. intros Hfp. by rw /fingerprint_is Hfp. Qed.

Lemma fingerprint_is_raise fingerprint c e :
  build_event_fingerprint c.1.1 c.1.2 = Raise e ->
  fingerprint_is fingerprint c = false.
Proof. intros Hfp. by rw /fingerprint_is Hfp. Qed.

Lemma decisions_for_cons fingerprint self c calls :
  decisions_for fingerprint self (c :: calls)
  = if fingerprint_is fingerprint c
    then (step self c).1 :: decisions_for fingerprint (step self c).2 calls
    else decisions_for fingerprint (step self c).2 calls.
Proof. reflexivity. Qed.

Lemma admitted_cons decision decisions :
  admitted (decision :: decisions)
  = ((if is_admitted decision then 1 else 0) + admitted decisions)%nat.
Proof. rw /admitted. cbn [List.filter]. by destruct (is_admitted decision). Qed.

(** Timestamps inside the window survive the purge, whatever stands in front
    of them. *)
Lemma popleft_while_old_keeps boundary (pre kept : list datetime) :
  Forall (fun t => boundary <= t) kept ->
  exists pre', popleft_while_old boundary (pre ++ kept) = pre' ++ kept.
Proof.
  intros Hkept. induction pre as [|t pre [pre' IH]].
  - exists []. apply popleft_while_old_fresh.
    destruct Hkept as [|t kept Ht _]; [done|]. by intros t' [= <-].
  - cbn [app popleft_while_old]. destruct (t <? boundary).
    + by exists pre'.
    + by exists (t :: pre).
Qed.

Lemma record_of_bounded self fingerprint :
  0 <= rate_limit_number_of_events self -> bounded self ->
  Z.of_nat (length (record_of self fingerprint))
  <= rate_limit_number_of_events self.
Proof.
  intros Hcap Hb. rw /record_of.
  destruct (recorded self !! fingerprint) eqn:Hlook; [by apply (Hb _ _ Hlook)|].
  by cbn.
Qed.

Lemma run_bounded self calls :
  0 <= rate_limit_number_of_events self -> bounded self ->
  bounded (run self calls).2.
Proof.
  intros Hcap Hb.
  apply (run_invariant
           (fun s => rate_limit_number_of_events s
                     = rate_limit_number_of_events self /\ bounded s));
    [|done].
  intros s [[event hint] now] [Hc Hs]. split.
  - by rw (proj2 (step_config s (event, hint, now))).
  - apply should_rate_limit_bounded; [by rw Hc|done].
Qed.

(** The admitted timestamps of calls that all lie in one window stay in the
    record until the end of the run. *)
Lemma admitted_kept fingerprint (window : timedelta) (lo : datetime) calls :
  forall self (kept : list datetime),
    rate_limit_window self = window ->
    Forall (fun c => lo <= call_now c <= lo + window) calls ->
    (exists pre, record_of self fingerprint = pre ++ kept) ->
    Forall (fun t => lo <= t) kept ->
    (length kept + admitted (decisions_for fingerprint self calls)
     <= length (record_of (run self calls).2 fingerprint))%nat.
Proof.
  induction calls as [|c calls IH]; intros self kept Hw Hcalls [pre Hrec] Hkept.
  - cbn. rw Hrec length_app. lia.
  - apply Forall_cons in Hcalls as [[Hlo Hhi] Hcalls]. rw /call_now in Hlo Hhi.
    rw run_cons decisions_for_cons. cbn [snd].
    have Hw' : rate_limit_window (step self c).2 = window
      by rw (proj1 (step_config self c)).
    destruct (step_cases self c) as [[e Hstep]|(fp & Hfp & Hr)].
    + rw Hstep. cbn [fst snd].
      have Hrest :
        (length kept + admitted (decisions_for fingerprint self calls)
         <= length (record_of (run self calls).2 fingerprint))%nat
        by (apply IH; [done|done|by exists pre|done]).
      destruct (fingerprint_is fingerprint c); [|done].
      by rw admitted_cons.
    + destruct (step_ok self c fp Hfp Hr) as [Hdec Hrecs].
      have Hkept' : Forall (fun t => c.2 - rate_limit_window self <= t) kept.
      { eapply Forall_impl; [exact Hkept|]. intros t Ht. cbn in Ht. lia. }
      destruct (popleft_while_old_keeps _ pre kept Hkept') as [pre' Hpurged].
      rw (fingerprint_is_ok _ _ _ Hfp).
      case_bool_decide as Hsame.
      * subst fp. rw admitted_cons Hdec.
        have Hnext := Hrecs fingerprint.
        rw bool_decide_eq_true_2 // record_step_snd Hrec Hpurged in Hnext.
        rw record_step_fst Hrec Hpurged. cbn zeta in Hnext.
        destruct (bool_decide _); cbn [is_admitted].
        -- rw Nat.add_0_l. apply IH; [done|done|by exists pre'|done].
        -- have Hgoal :
             (length (kept ++ [c.2])
              + admitted (decisions_for fingerprint (step self c).2 calls)
              <= length (record_of (run (step self c).2 calls).2
                           fingerprint))%nat.
           { apply IH; [done|done| |].
             - exists pre'. by rw Hnext app_assoc.
             - apply Forall_app. split; [done|]. by constructor. }
           rw length_app in Hgoal. cbn [length] in Hgoal. lia.
      * apply IH; [done|done| |done].
        exists pre'. rw (Hrecs fingerprint) bool_decide_eq_false_2; [congruence|].
        by rw Hrec Hpurged.
Qed.

Lemma admitted_le_record fingerprint (lo : datetime) self calls :
  Forall (fun c => lo <= call_now c <= lo + rate_limit_window self) calls ->
  (admitted (decisions_for fingerprint self calls)
   <= length (record_of (run self calls).2 fingerprint))%nat.
Proof.
  intros Hcalls.
  have Hkept := admitted_kept fingerprint _ lo calls self [] eq_refl Hcalls.
  cbn [length Nat.add] in Hkept. apply Hkept; [|done].
  exists (record_of self fingerprint). by rw app_nil_r.
Qed.

(** X1: the rate limit holds.  Among calls whose clock readings all lie in
    one interval of the length of the window, the calls of one fingerprint
    that are admitted are at most [rate_limit_number_of_events], whatever the
    order of the readings and whatever other fingerprints are interleaved. *)
Theorem X1_at_most_cap_admitted_per_window
    fingerprint (lo : datetime) self calls :
  0 <= rate_limit_number_of_events self ->
  bounded self ->
  Forall (fun c => lo <= call_now c <= lo + rate_limit_window self) calls ->
  Z.of_nat (admitted (decisions_for fingerprint self calls))
  <= rate_limit_number_of_events self.
Proof.
  intros Hcap Hb Hcalls.
  have Hlen := admitted_le_record fingerprint lo self calls Hcalls.
  have Hb' := run_bounded self calls Hcap Hb.
  have Hfinal := record_of_bounded (run self calls).2 fingerprint.
  rw (proj2 (run_config self calls)) in Hfinal.
  specialize (Hfinal Hcap Hb'). lia.
Qed.

Lemma times_for_cons fingerprint c calls :
  times_for fingerprint (c :: calls)
  = if fingerprint_is fingerprint c
    then call_now c :: times_for fingerprint calls
    else times_for fingerprint calls.
Proof.
  rw /times_for. cbn [List.filter]. by destruct (fingerprint_is fingerprint c).
Qed.

(** A call whose extraction succeeds and whose boundary is a datetime does
    not raise. *)
Lemma step_not_raise fingerprint self c e :
  fingerprint_is fingerprint c = true ->
  representable (call_now c - rate_limit_window self) ->
  step self c <> (Raise e, self).
Proof.
  rw /fingerprint_is /call_now.
  destruct (build_event_fingerprint c.1.1 c.1.2) as [fp|e'] eqn:Hfp; [|done].
  intros _ Hr Hstep. destruct (step_ok self c fp Hfp Hr) as [Hdec _].
  by rw Hstep in Hdec.
Qed.

(** X2: while the cap is not reached every occurrence is admitted.  When the
    record of a fingerprint and the calls of that fingerprint in a run
    together are no more than [rate_limit_number_of_events], and the boundary
    [now - window] of each of these calls is a datetime, every one of them is
    admitted, whatever the clock readings and the other calls. *)
Theorem X2_admitted_below_cap fingerprint calls : forall self,
  Z.of_nat (length (record_of self fingerprint)
            + length (times_for fingerprint calls))
  <= rate_limit_number_of_events self ->
  Forall (fun t => representable (t - rate_limit_window self))
    (times_for fingerprint calls) ->
  decisions_for fingerprint self calls
  = replicate (length (times_for fingerprint calls)) (Ok false).
Proof.
  induction calls as [|c calls IH]; intros self Hroom Hrs; [done|].
  rw decisions_for_cons times_for_cons.
  rw times_for_cons in Hroom Hrs.
  destruct (step_config self c) as [Hw Hc].
  destruct (step_cases self c) as [[e Hstep]|(fp & Hfp & Hr)].
  - destruct (fingerprint_is fingerprint c) eqn:Hown.
    + apply Forall_cons in Hrs as [Hr _].
      by destruct (step_not_raise _ _ _ e Hown Hr).
    + rw Hstep. by apply IH.
  - destruct (step_ok self c fp Hfp Hr) as [Hdec Hrecs].
    have Hnext := Hrecs fingerprint.
    rw (fingerprint_is_ok _ _ _ Hfp).
    rw (fingerprint_is_ok _ _ _ Hfp) in Hroom Hrs.
    have Hpurged := popleft_while_old_length (c.2 - rate_limit_window self)
                      (record_of self fingerprint).
    destruct (decide (fp = fingerprint)) as [Hsame|Hne].
    + subst fp. rw !bool_decide_eq_true_2 //.
      rw bool_decide_eq_true_2 // in Hroom.
      rw bool_decide_eq_true_2 // in Hrs.
      cbn [length replicate] in Hroom |- *.
      apply Forall_cons in Hrs as [_ Hrs].
      rw bool_decide_eq_true_2 // record_step_snd in Hnext. cbn zeta in Hnext.
      rw Hdec record_step_fst.
      have Hbelow :
        ~ rate_limit_number_of_events self
          <= Z.of_nat (length (popleft_while_old
                                 (c.2 - rate_limit_window self)
                                 (record_of self fingerprint))).
      { set (n := length (popleft_while_old _ _)) in *. lia. }
      rw bool_decide_eq_false_2 // in Hnext. rw bool_decide_eq_false_2 //.
      f_equal. apply IH; [|by rw Hw].
      rw Hc Hnext length_app. cbn [length].
      set (n := length (popleft_while_old _ _)) in *. lia.
    + rw !bool_decide_eq_false_2 //.
      rw bool_decide_eq_false_2 // in Hroom.
      rw bool_decide_eq_false_2 // in Hrs.
      apply IH; [|by rw Hw].
      rw Hc Hnext bool_decide_eq_false_2; [congruence|].
      set (n := length (popleft_while_old _ _)) in *. lia.
Qed.

Lemma record_step_purged cap window now boundary (timestamps : list datetime) :
  boundary <= now - window ->
  record_step cap window now (popleft_while_old boundary timestamps)
  = record_step cap window now timestamps.
Proof. intros Hle. by rw /record_step popleft_while_old_twice. Qed.

(** The record a step leaves is not touched by a purge at a boundary that is
    neither after the step's boundary nor after its clock reading. *)
Lemma record_step_settled cap window now boundary (timestamps : list datetime) :
  boundary <= now - window -> boundary <= now ->
  popleft_while_old boundary (record_step cap window now timestamps).2
  = (record_step cap window now timestamps).2.
Proof.
  intros Hb Hnow. apply popleft_while_old_fresh. rw record_step_snd. cbn zeta.
  have Hhead := popleft_while_old_head (now - window) timestamps.
  destruct (popleft_while_old (now - window) timestamps) as [|t0 rest].
  - destruct (bool_decide _); cbn; [done|]. intros t [= <-]. lia.
  - have Ht0 : now - window <= t0 by apply Hhead.
    destruct (bool_decide _); cbn; intros t [= <-]; lia.
Qed.

(** With a clock that never goes back, what the calls of the other
    fingerprints do to a record (purging it) is subsumed by the purge of the
    next call of its own fingerprint. *)
Lemma decisions_for_own_record fingerprint calls :
  forall self (timestamps : list datetime) (boundary : datetime),
    record_of self fingerprint = popleft_while_old boundary timestamps ->
    Forall (fun c => boundary <= call_now c - rate_limit_window self) calls ->
    Forall (fun t => representable (t - rate_limit_window self))
      (times_for fingerprint calls) ->
    monotonic calls ->
    decisions_for fingerprint self calls
    = Ok <$> record_run (rate_limit_number_of_events self)
               (rate_limit_window self) timestamps
               (times_for fingerprint calls).
Proof.
  induction calls as [|c calls IH];
    intros self timestamps boundary Hrec Hafter Hrs Hmono; [done|].
  rw decisions_for_cons times_for_cons. rw times_for_cons in Hrs.
  apply Forall_cons in Hafter as [Hb Hafter]. rw /call_now in Hb.
  rw /monotonic fmap_cons in Hmono.
  apply StronglySorted_inv in Hmono as [Hmono Hlater].
  apply (proj1 (Forall_fmap _ _ _)) in Hlater.
  destruct (step_config self c) as [Hw Hc].
  have Hrest : forall b, b <= c.2 - rate_limit_window self ->
    Forall (fun c' => b <= call_now c' - rate_limit_window (step self c).2)
      calls.
  { intros b Hb1. rw Hw.
    eapply Forall_impl; [exact Hlater|]. intros c' Hc'.
    rw /compose /call_now in Hc'. rw /call_now. lia. }
  destruct (step_cases self c) as [[e Hstep]|(fp & Hfp & Hr)].
  - destruct (fingerprint_is fingerprint c) eqn:Hown.
    + apply Forall_cons in Hrs as [Hr _].
      by destruct (step_not_raise _ _ _ e Hown Hr).
    + rw Hstep. by apply (IH _ _ boundary).
  - destruct (step_ok self c fp Hfp Hr) as [Hdec Hrecs].
    have Hnext := Hrecs fingerprint.
    rw (fingerprint_is_ok _ _ _ Hfp). rw (fingerprint_is_ok _ _ _ Hfp) in Hrs.
    destruct (decide (fp = fingerprint)) as [Hsame|Hne].
    + subst fp. rw !bool_decide_eq_true_2 //.
      rw bool_decide_eq_true_2 // in Hrs. apply Forall_cons in Hrs as [_ Hrs].
      rw bool_decide_eq_true_2 // Hrec record_step_purged // in Hnext.
      rw Hdec Hrec record_step_purged //.
      rw record_run_cons fmap_cons. f_equal.
      rw -Hw -Hc. apply (IH _ _ (Z.min (c.2 - rate_limit_window self) c.2)).
      * rw Hnext Hw Hc /call_now record_step_settled; [lia|lia|done].
      * apply Hrest; lia.
      * by rw Hw.
      * done.
    + rw !bool_decide_eq_false_2 //.
      rw bool_decide_eq_false_2 // in Hrs.
      rw bool_decide_eq_false_2 in Hnext; [congruence|].
      rw -Hw -Hc. apply (IH _ _ (c.2 - rate_limit_window self)).
      * by rw Hnext Hrec popleft_while_old_twice.
      * apply Hrest; lia.
      * by rw Hw.
      * done.
Qed.
(** X3: fingerprints do not interfere.  With clock readings that never
    decrease, the decisions of the calls of one fingerprint, when the boundary
    [now - window] of each of them is a datetime, are those of a limiter that
    sees only these calls: they depend on that fingerprint's record and on
    the clock readings of its own calls, not on the calls of other
    fingerprints nor on the calls that raise. *)
Theorem X3_fingerprints_do_not_interfere fingerprint self calls :
  monotonic calls ->
  Forall (fun t => representable (t - rate_limit_window self))
    (times_for fingerprint calls) ->
  decisions_for fingerprint self calls
  = Ok <$> record_run (rate_limit_number_of_events self)
             (rate_limit_window self) (record_of self fingerprint)
             (times_for fingerprint calls).
Proof.
  intros Hmono Hrs. destruct calls as [|c calls]; [done|].
  set (first := call_now c - rate_limit_window self).
  set (boundary :=
         Z.min first (default first (head (record_of self fingerprint)))).
  apply (decisions_for_own_record _ _ _ _ boundary); [| |done|done].
  - symmetry. apply popleft_while_old_fresh. intros t Ht.
    rw /boundary Ht /default. cbn [from_option id]. lia.
  - rw /monotonic fmap_cons in Hmono.
    apply StronglySorted_inv in Hmono as [_ Hlater].
    apply (proj1 (Forall_fmap _ _ _)) in Hlater.
    constructor; [rw /boundary /first; lia|].
    eapply Forall_impl; [exact Hlater|]. intros c' Hc'.
    rw /compose in Hc'. rw /boundary /first. lia.
Qed.

(** X4: after a quiet window the next occurrence goes through.  When every
    timestamp in the record of a fingerprint is older than [now - window],
    which is a datetime, and the cap is positive, the call is admitted and
    the record restarts with [now] alone. *)
Theorem X4_admitted_after_quiet_window event hint now self fingerprint :
  build_event_fingerprint event hint = Ok fingerprint ->
  representable (now - rate_limit_window self) ->
  0 < rate_limit_number_of_events self ->
  Forall (fun t => t < now - rate_limit_window self)
    (record_of self fingerprint) ->
  exists self',
    should_rate_limit event hint now self = (Ok false, self') /\
    recorded self' !! fingerprint = Some [now].
Proof.
  intros Hfp Hr Hcap Hold.
  destruct (should_rate_limit_records _ _ now self _ Hfp Hr)
    as (self' & Hcall & _ & _ & Hrec & _).
  exists self'. rw Hcall Hrec. by rw record_step_expired.
Qed.

(** X5: a cap of zero or less silences every issue.  With
    [rate_limit_number_of_events <= 0] no call is ever admitted, whatever the
    limiter, the events and the clock; a call whose extraction succeeds is
    dropped and still leaves a record for its fingerprint when its boundary
    is a datetime, and raises [OverflowError] otherwise. *)
Theorem X5_nothing_admitted_without_cap self calls :
  rate_limit_number_of_events self <= 0 ->
  admitted (run self calls).1 = 0%nat /\
  forall event hint now fingerprint,
    build_event_fingerprint event hint = Ok fingerprint ->
    (representable (now - rate_limit_window self) ->
     (should_rate_limit event hint now self).1 = Ok true /\
     is_Some (recorded (should_rate_limit event hint now self).2
              !! fingerprint)) /\
    (~ representable (now - rate_limit_window self) ->
     should_rate_limit event hint now self = (Raise OverflowError, self)).
Proof.
  intros Hcap. split.
  - revert self Hcap. induction calls as [|c calls IH]; intros self Hcap; [done|].
    rw run_cons. cbn [fst]. rw admitted_cons IH.
    { by rw (proj2 (step_config self c)). }
    destruct (step_cases self c) as [[e ->]|(fp & Hfp & Hr)]; [done|].
    rw (proj1 (step_ok self c fp Hfp Hr)) record_step_fst.
    rw bool_decide_eq_true_2; [|done].
    set (n := length (popleft_while_old _ _)). lia.
  - intros event hint now fingerprint Hfp. split.
    + intros Hr.
      destruct (should_rate_limit_records _ _ now self _ Hfp Hr)
        as (self' & -> & _ & _ & Hrec & _).
      cbn [fst snd]. rw Hrec record_step_fst. split; [|by eexists].
      rw bool_decide_eq_true_2; [|done].
      set (n := length (popleft_while_old _ _)). lia.
    + intros Hr. by apply (should_rate_limit_overflow _ _ _ _ _ Hfp).
Qed.

(** ** Further properties of the purge *)

(** X6: on time-ordered records the purge removes exactly the expired
    timestamps.  [remove_old_records] pops from the front only, yet when every
    record is ordered oldest first and [now - window] is a datetime, each
    record becomes the list of its timestamps that are at least
    [now - window], in their order; when [now - window] is not a datetime the
    purge raises [OverflowError] and removes nothing. *)
Theorem X6_purge_removes_exactly_the_expired now self fingerprint :
  time_ordered self ->
  (representable (now - rate_limit_window self) ->
   recorded (remove_old_records now self).2 !! fingerprint
   = List.filter (fun t => now - rate_limit_window self <=? t)
       <$> recorded self !! fingerprint) /\
  (~ representable (now - rate_limit_window self) ->
   remove_old_records now self = (Raise OverflowError, self)).
Proof.
  intros Hsorted. split; [|apply remove_old_records_overflow].
  intros Hr. rw remove_old_records_eq //. cbn [snd with_recorded recorded].
  rw lookup_fmap.
  destruct (recorded self !! fingerprint) as [ts|] eqn:Hlook; [|done].
  cbn. f_equal. apply popleft_while_old_filter. by apply (Hsorted _ _ Hlook).
Qed.

(** X7: purges compose.  A purge at [now1] followed by a purge at a later or
    equal [now2] whose boundary [now2 - window] is a datetime leaves the
    limiter that the purge at [now2] alone leaves; in particular a purge
    repeated at the same instant changes nothing more. *)
Theorem X7_purges_compose (now1 now2 : datetime) self :
  now1 <= now2 ->
  representable (now2 - rate_limit_window self) ->
  (remove_old_records now2 (remove_old_records now1 self).2).2
  = (remove_old_records now2 self).2.
Proof.
  intros Hle Hr2.
  destruct (decide (representable (now1 - rate_limit_window self)))
    as [Hr1|Hr1]; [|by rw (remove_old_records_overflow now1)].
  rw (remove_old_records_eq now1) //.
  cbn [snd]. rw !remove_old_records_eq //.
  cbn [snd with_recorded recorded rate_limit_window
       rate_limit_number_of_events].
  rw /with_recorded. f_equal. apply map_eq. intros k. rw !lookup_fmap.
  destruct (recorded self !! k) as [ts|]; [|done]. cbn. f_equal.
  apply popleft_while_old_twice. lia.
Qed.

(** X8: records are never evicted.  A purge keeps the set of fingerprints
    that have a record, even when it empties a record; a call that returns
    adds its fingerprint to the set and removes none; so the set only grows
    along a run. *)
Theorem X8_records_are_never_evicted self :
  (forall now, fingerprints (remove_old_records now self).2
               = fingerprints self) /\
  (forall event hint now fingerprint,
      build_event_fingerprint event hint = Ok fingerprint ->
      representable (now - rate_limit_window self) ->
      fingerprints (should_rate_limit event hint now self).2
      = {[fingerprint]} ∪ fingerprints self) /\
  (forall calls, fingerprints self ⊆ fingerprints (run self calls).2).
Proof.
  split; [|split].
  - intros now.
    destruct (decide (representable (now - rate_limit_window self)))
      as [Hr|Hr]; [|by rw remove_old_records_overflow].
    rw /fingerprints remove_old_records_eq //.
    cbn [snd with_recorded recorded]. by rw dom_fmap_L.
  - intros event hint now fingerprint Hfp Hr.
    rw /fingerprints (should_rate_limit_ok _ _ now self _ Hfp Hr).
    cbn [snd with_recorded recorded]. by rw dom_insert_L dom_fmap_L.
  - intros calls. revert self.
    induction calls as [|c calls IH]; intros self; [done|].
    rw run_cons. cbn [snd]. etrans; [|apply IH].
    destruct (step_cases self c) as [[e ->]|(fp & Hfp & Hr)]; [done|].
    rw /step /fingerprints (should_rate_limit_ok _ _ c.2 self _ Hfp Hr).
    cbn [snd with_recorded recorded]. rw dom_insert_L dom_fmap_L.
    set_solver.
Qed.

(** * Further properties of the extractor and of the hook *)

Lemma frame_text_ok frame :
  has_path_and_line frame -> exists line, frame_text frame = Ok line.
Proof.
  rw /has_path_and_line /frame_pair /frame_text.
  destruct (Frame.abs_path frame) as [abs_path|]; [|by intros [? [=]]].
  destruct (Frame.lineno frame) as [lineno|]; [|by intros [? [=]]].
  by eexists.
Qed.

Lemma frame_text_missing frame :
  ~ has_path_and_line frame ->
  frame_text frame = Raise (KeyError (missing_key frame)).
Proof.
  rw /has_path_and_line /frame_pair /frame_text /missing_key.
  destruct (Frame.abs_path frame) as [abs_path|]; [|done].
  destruct (Frame.lineno frame) as [lineno|]; [|done].
  intros Hnot. destruct Hnot. by eexists.
Qed.

(** The comprehension over the frames returns when every frame has both
    keys, and raises for the first frame that has not. *)
Lemma comprehension_frame_text_ok frames :
  Forall has_path_and_line frames ->
  exists lines, comprehension frame_text frames = Ok lines.
Proof.
  induction 1 as [|frame frames Hframe _ [lines IH]]; [by eexists|].
  destruct (frame_text_ok _ Hframe) as [line Hline].
  rw comprehension_cons Hline IH. by eexists.
Qed.

Lemma comprehension_frame_text_first good bad rest :
  Forall has_path_and_line good -> ~ has_path_and_line bad ->
  comprehension frame_text (good ++ bad :: rest)
  = Raise (KeyError (missing_key bad)).
Proof.
  intros Hgood Hbad.
  induction Hgood as [|frame good Hframe _ IH]; cbn [app];
    rw comprehension_cons.
  - by rw (frame_text_missing _ Hbad).
  - destruct (frame_text_ok _ Hframe) as [line ->]. by rw IH.
Qed.

Lemma comprehension_frame_text_returns frames lines :
  comprehension frame_text frames = Ok lines ->
  Forall has_path_and_line frames.
Proof.
  revert lines. induction frames as [|frame frames IH]; intros lines.
  { intros _. by apply Forall_nil. }
  rw comprehension_cons.
  destruct (decide (is_Some (frame_pair frame))) as [Hframe|Hframe];
    [|by rw (frame_text_missing _ Hframe)].
  destruct (frame_text_ok _ Hframe) as [line ->].
  destruct (comprehension frame_text frames) as [rest|e]; [|done].
  intros _. apply List.Forall_cons; [done|]. by apply (IH rest).
Qed.

(** X9: threads that cannot be used are not skipped.  When the hint has no
    traceback and the event has a ["threads"] key, extraction succeeds exactly
    when there is one thread entry, it has a stack trace, the stack trace has
    frames, and every frame has a path and a line number.  Otherwise it
    raises: [KeyError] for the missing ["stacktrace"] or ["frames"], and for
    the key that the first incomplete frame lacks.  The rest of the hint, a
    log record for one, is not looked at. *)
Theorem X9_unusable_threads_are_not_skipped event hint th :
  exc_info hint = None ->
  threads event = Some th ->
  ((exists fingerprint, build_event_fingerprint event hint = Ok fingerprint)
   <-> exists thread stacktrace frames,
         values th = [thread] /\
         Thread.stacktrace thread = Some stacktrace /\
         Stacktrace.frames stacktrace = Some frames /\
         Forall has_path_and_line frames) /\
  (forall thread,
      values th = [thread] -> Thread.stacktrace thread = None ->
      build_event_fingerprint event hint = Raise (KeyError "stacktrace")) /\
  (forall thread stacktrace,
      values th = [thread] -> Thread.stacktrace thread = Some stacktrace ->
      Stacktrace.frames stacktrace = None ->
      build_event_fingerprint event hint = Raise (KeyError "frames")) /\
  (forall thread stacktrace good bad rest,
      values th = [thread] -> Thread.stacktrace thread = Some stacktrace ->
      Stacktrace.frames stacktrace = Some (good ++ bad :: rest) ->
      Forall has_path_and_line good -> ~ has_path_and_line bad ->
      build_event_fingerprint event hint
      = Raise (KeyError (missing_key bad))) /\
  (forall hint',
      exc_info hint' = None ->
      build_event_fingerprint event hint'
      = build_event_fingerprint event hint).
Proof.
  intros Hexc Hthreads.
  have Hbuild : forall h, exc_info h = None ->
    build_event_fingerprint event h = _fingerprint_from_threads event.
  { intros h Hh. by rw /build_event_fingerprint Hh Hthreads. }
  rw (Hbuild hint Hexc) /_fingerprint_from_threads Hthreads.
  destruct th as [vs]. cbn [values].
  split; [|split; [|split; [|split]]].
  - split.
    + intros [fingerprint Hok].
      destruct vs as [|thread [|thread' rest]]; [done| |done].
      cbn in Hok.
      destruct (Thread.stacktrace thread) as [stacktrace|] eqn:Hs; [|done].
      destruct (Stacktrace.frames stacktrace) as [frames|] eqn:Hf; [|done].
      exists thread, stacktrace, frames. repeat split; [done..|].
      rw /mbind /result_bind in Hok.
      destruct (comprehension frame_text frames) as [lines|e] eqn:Hc; [|done].
      by apply (comprehension_frame_text_returns _ lines).
    + intros (thread & stacktrace & frames & -> & Hs & Hf & Hall).
      cbn. rw Hs Hf.
      destruct (comprehension_frame_text_ok _ Hall) as [lines ->].
      by eexists.
  - intros thread -> Hs. cbn. by rw Hs.
  - intros thread stacktrace -> Hs Hf. cbn. by rw Hs Hf.
  - intros thread stacktrace good bad rest -> Hs Hf Hgood Hbad.
    cbn. by rw Hs Hf comprehension_frame_text_first.
  - intros hint' Hexc'. rw (Hbuild hint' Hexc').
    by rw /_fingerprint_from_threads Hthreads.
Qed.

(** X10: the warning tells that the call raised.  [before_send] logs no
    warning exactly when fingerprint extraction succeeds and the boundary
    [now - window] is a datetime; when extraction fails the warning carries
    the exception of the extractor, otherwise [OverflowError]; in both cases
    the event is returned and the limiter is left as it was, not even
    purged. *)
Theorem X10_warning_iff_call_raises event hint now self :
  ((before_send event hint now self).2 = []
   <-> (exists fingerprint,
          build_event_fingerprint event hint = Ok fingerprint) /\
       representable (now - rate_limit_window self)) /\
  (forall e,
      build_event_fingerprint event hint = Raise e ->
      exists warning,
        before_send event hint now self = (Ok (Some event), self, [warning]) /\
        warning_exc_info warning = e) /\
  (forall fingerprint,
      build_event_fingerprint event hint = Ok fingerprint ->
      ~ representable (now - rate_limit_window self) ->
      exists warning,
        before_send event hint now self = (Ok (Some event), self, [warning]) /\
        warning_exc_info warning = OverflowError).
Proof.
  rw /before_send /before_send_with.
  destruct (build_event_fingerprint event hint) as [fp|e] eqn:Hfp.
  - destruct (decide (representable (now - rate_limit_window self)))
      as [Hr|Hr].
    + destruct (should_rate_limit_records _ _ now self _ Hfp Hr)
        as (s & -> & _).
      split; [|split; [done|]].
      * destruct (record_step _ _ _ _).1; cbn; split; by eauto.
      * by intros fingerprint _ Hnot.
    + rw (should_rate_limit_overflow _ _ now self _ Hfp Hr). cbn.
      split; [|split; [done|]].
      * split; [done|]. by intros [_ Hyes].
      * intros fingerprint _ _. by eexists.
  - rw (should_rate_limit_raise _ _ now self _ Hfp). cbn.
    split; [|split; [|done]].
    + split; [done|]. by intros [[? [=]] _].
    + intros e' [= <-]. by eexists.
Qed.

Lemma site_text_cons_not_empty p site : site_text (p :: site) <> "".
Proof.
  rw /site_text fmap_cons. destruct site as [|q site].
  - apply site_line_not_empty.
  - rw fmap_cons join_newline_cons.
    destruct (site_line p) eqn:Hp; [by destruct (site_line_not_empty p)|done].
Qed.

(** X11: the empty fingerprint is the fingerprint of the captures without
    frames.  For a capture in one of the two stack shapes the fingerprint is
    the empty string exactly when the traceback, or the stack of the single
    thread, has no frame; all such captures share one record. *)
Theorem X11_empty_fingerprint_iff_no_frame event hint site :
  site_of event hint = Some site ->
  build_event_fingerprint event hint = Ok "" <-> site = [].
Proof.
  intros Hsite. rw (site_fingerprint _ _ _ Hsite). split.
  - intros [= Htext]. destruct site as [|p site]; [done|].
    by destruct (site_text_cons_not_empty p site).
  - by intros ->.
Qed.

Lemma space_not_a_digit n : " "%char <> pretty_N_char n.
Proof. rw /pretty_N_char. by repeat case_match. Qed.

Lemma contains_space_pretty (z : Z) : contains " "%char (pretty z) = false.
Proof. apply contains_pretty_Z; [apply space_not_a_digit|done]. Qed.

Lemma contains_colon_pretty (z : Z) : contains ":"%char (pretty z) = false.
Proof. apply contains_pretty_Z; [apply not_a_digit; by left|done]. Qed.

(** X12: the fingerprint of a bare log record tells the records apart.  For
    two captures in the log-record shape whose path names hold no colon, or
    whose messages hold no colon, the fingerprints are equal exactly when
    path name, line number and message template are equal. *)
Theorem X12_log_record_fingerprint_injective event1 hint1 event2 hint2 r1 r2 :
  exc_info hint1 = None -> threads event1 = None -> log_record hint1 = Some r1 ->
  exc_info hint2 = None -> threads event2 = None -> log_record hint2 = Some r2 ->
  (contains ":"%char (LogRecord.pathname r1) = false /\
   contains ":"%char (LogRecord.pathname r2) = false) \/
  (contains ":"%char (LogRecord.msg r1) = false /\
   contains ":"%char (LogRecord.msg r2) = false) ->
  build_event_fingerprint event1 hint1 = build_event_fingerprint event2 hint2
  <-> r1 = r2.
Proof.
  intros Hexc1 Hthr1 Hlog1 Hexc2 Hthr2 Hlog2 Hfree.
  rw /build_event_fingerprint /_fingerprint_from_log_record
     Hexc1 Hthr1 Hlog1 Hexc2 Hthr2 Hlog2.
  cbn [bool_decide decide_rel]. split; [|by intros ->].
  destruct r1 as [p1 l1 m1], r2 as [p2 l2 m2].
  cbn [LogRecord.pathname LogRecord.lineno LogRecord.msg] in *.
  intros [= Heq].
  have Hsplit : p1 = p2 /\
                pretty l1 +:+ String " " m1 = pretty l2 +:+ String " " m2.
  { destruct Hfree as [[H1 H2]|[H1 H2]].
    - by apply (split_first ":"%char).
    - apply (split_last ":"%char); [| |done].
      + by rw contains_app contains_colon_pretty /= H1.
      + by rw contains_app contains_colon_pretty /= H2. }
  destruct Hsplit as [-> Hrest].
  apply split_first in Hrest as [Hl ->]; [|apply contains_space_pretty..].
  by apply (inj pretty) in Hl as ->.
Qed.

(** [before_send] in terms of the step of a run. *)
Lemma before_send_step self c :
  before_send c.1.1 c.1.2 c.2 self
  = match step self c with
    | (Ok true, self') => (Ok None, self', [])
    | (Ok false, self') => (Ok (Some c.1.1), self', [])
    | (Raise e, self') =>
        (Ok (Some c.1.1), self',
         [{| warning_msg :=
               "exception occurred in sentry before_send, ignoring rate limit";
             warning_exc_info := e |}])
    end.
Proof.
  rw /before_send /before_send_with /step.
  by destruct (should_rate_limit c.1.1 c.1.2 c.2 self) as [[[|]|e] s].
Qed.

Lemma fingerprint_is_true fingerprint c :
  fingerprint_is fingerprint c = true ->
  build_event_fingerprint c.1.1 c.1.2 = Ok fingerprint.
Proof.
  rw /fingerprint_is.
  destruct (build_event_fingerprint c.1.1 c.1.2) as [fp|e]; [|done].
  by intros ->%bool_decide_eq_true.
Qed.

Lemma times_for_representable fingerprint (window : timedelta) calls :
  Forall (fun c => representable (call_now c - window)) calls ->
  Forall (fun t => representable (t - window)) (times_for fingerprint calls).
Proof.
  induction 1 as [|c calls Hc _ IH]; [by apply Forall_nil|].
  rw times_for_cons. destruct (fingerprint_is fingerprint c); [|done].
  by apply List.Forall_cons.
Qed.

Lemma forwarded_for_cons fingerprint self c calls :
  (fingerprint_is fingerprint c = true ->
   representable (call_now c - rate_limit_window self)) ->
  forwarded_for before_send fingerprint self (c :: calls)
  = (if is_admitted (step self c).1 && fingerprint_is fingerprint c
     then [c.1.1] else [])
    ++ forwarded_for before_send fingerprint (step self c).2 calls.
Proof.
  intros Hr. cbn [forwarded_for]. rw before_send_step.
  destruct (fingerprint_is fingerprint c) eqn:Hown.
  - have Hfp := fingerprint_is_true _ _ Hown.
    have Hdec := proj1 (step_ok self c fingerprint Hfp (Hr eq_refl)).
    destruct (step self c) as [[[|]|e] s]; cbn [fst snd is_admitted andb];
      [done|done|discriminate Hdec].
  - rw andb_false_r.
    by destruct (step self c) as [[[|]|e] s].
Qed.

Lemma forwarded_for_admitted fingerprint calls : forall self,
  Forall (fun t => representable (t - rate_limit_window self))
    (times_for fingerprint calls) ->
  length (forwarded_for before_send fingerprint self calls)
  = admitted (decisions_for fingerprint self calls) /\
  forwarded_for before_send fingerprint self calls
    `sublist_of` (fun c : call => c.1.1)
                   <$> List.filter (fingerprint_is fingerprint) calls.
Proof.
  induction calls as [|c calls IH]; intros self Hrs; [done|].
  rw times_for_cons in Hrs.
  have Hown : fingerprint_is fingerprint c = true ->
              representable (call_now c - rate_limit_window self).
  { intros Hyes. rw Hyes in Hrs. by apply Forall_cons in Hrs as [Hr _]. }
  have Hrest : Forall (fun t => representable
                                  (t - rate_limit_window (step self c).2))
                 (times_for fingerprint calls).
  { rw (proj1 (step_config self c)).
    destruct (fingerprint_is fingerprint c); [|done].
    by apply Forall_cons in Hrs as [_ Hrs]. }
  destruct (IH (step self c).2 Hrest) as [IHlen IHsub].
  rw forwarded_for_cons // decisions_for_cons length_app IHlen.
  cbn [List.filter].
  destruct (fingerprint_is fingerprint c).
  - rw admitted_cons andb_true_r fmap_cons.
    destruct (is_admitted (step self c).1); cbn [length app Nat.add].
    + split; [done|by apply sublist_skip].
    + split; [done|by apply sublist_cons].
  - by rw andb_false_r.
Qed.

(** X13: the pipeline receives at most the cap.  Among captures whose clock
    readings all lie in one interval of the length of the window, the events
    of one fingerprint that [before_send] returns are at most
    [rate_limit_number_of_events], provided the boundary [now - window] of
    each capture of that fingerprint is a datetime; they are events of the
    captures, unchanged and in their order. *)
Theorem X13_hook_forwards_at_most_cap fingerprint (lo : datetime) self calls :
  0 <= rate_limit_number_of_events self ->
  bounded self ->
  Forall (fun c => lo <= call_now c <= lo + rate_limit_window self) calls ->
  Forall (fun t => representable (t - rate_limit_window self))
    (times_for fingerprint calls) ->
  Z.of_nat (length (forwarded_for before_send fingerprint self calls))
  <= rate_limit_number_of_events self /\
  forwarded_for before_send fingerprint self calls
    `sublist_of` (fun c : call => c.1.1)
                   <$> List.filter (fingerprint_is fingerprint) calls.
Proof.
  intros Hcap Hb Hcalls Hrs.
  destruct (forwarded_for_admitted fingerprint calls self Hrs) as [-> Hsub].
  split; [|done].
  have Hlen := admitted_le_record fingerprint lo self calls Hcalls.
  have Hfinal := record_of_bounded (run self calls).2 fingerprint.
  rw (proj2 (run_config self calls)) in Hfinal.
  specialize (Hfinal Hcap (run_bounded self calls Hcap Hb)). lia.
Qed.

(** X14: the example configuration keeps its promise.  The hook that
    [example/sentry_config.py] registers, run on the limiter it builds from
    its settings, lets through at most 5 events of one fingerprint among
    captures that all lie within one minute, the minute before each capture
    being in the range of datetimes. *)
Theorem X14_example_hook_five_per_minute fingerprint (lo : datetime) calls :
  Forall (fun c => lo <= call_now c <= lo + timedelta_minutes 1) calls ->
  Forall (fun c => representable (call_now c - timedelta_minutes 1)) calls ->
  (length (forwarded_for sentry_config.before_send fingerprint
             sentry_config.event_limiter calls)
   <= 5)%nat.
Proof.
  intros Hcalls Hrs.
  have Hlen := admitted_le_record fingerprint lo sentry_config.event_limiter
                 calls Hcalls.
  have Hcap : 0 <= rate_limit_number_of_events sentry_config.event_limiter
    by done.
  have Hb : bounded sentry_config.event_limiter by done.
  have Hfinal := record_of_bounded
                   (run sentry_config.event_limiter calls).2 fingerprint.
  rw (proj2 (run_config sentry_config.event_limiter calls)) in Hfinal.
  specialize (Hfinal Hcap (run_bounded _ calls Hcap Hb)).
  change (forwarded_for sentry_config.before_send)
    with (forwarded_for before_send).
  have Hown :
    Forall (fun t => representable
                       (t - rate_limit_window sentry_config.event_limiter))
      (times_for fingerprint calls)
    by apply (times_for_representable fingerprint (timedelta_minutes 1)).
  rw (proj1 (forwarded_for_admitted fingerprint calls
               sentry_config.event_limiter Hown)).
  change (rate_limit_number_of_events sentry_config.event_limiter) with 5
    in Hfinal.
  lia.
Qed.

Lemma never_drops_with_negative_window calls : forall self latest,
  rate_limit_window self < 0 ->
  0 < rate_limit_number_of_events self ->
  time_ordered self -> not_after latest self ->
  Forall (fun c => latest <= call_now c) calls ->
  monotonic calls ->
  Forall (fun decision => decision <> Ok true) (run self calls).1.
Proof.
  induction calls as [|c calls IH];
    intros self latest Hw Hcap Hsorted Hlatest Hafter Hmono; [by constructor|].
  rw run_cons. cbn [fst].
  apply Forall_cons in Hafter as [Hnow Hafter].
  rw /monotonic fmap_cons in Hmono.
  apply StronglySorted_inv in Hmono as [Hmono Hlater].
  apply (proj1 (Forall_fmap _ _ _)) in Hlater.
  destruct (step_ordered self c latest Hsorted Hlatest Hnow) as [Hs Hl].
  destruct (step_config self c) as [Hw' Hc'].
  constructor.
  - destruct (step_cases self c) as [[e ->]|(fp & Hfp & Hr)]; [done|].
    rw (proj1 (step_ok self c fp Hfp Hr)) record_step_expired //.
    rw /record_of. destruct (recorded self !! fp) eqn:Hlook; [|by constructor].
    eapply Forall_impl; [by apply (Hlatest _ _ Hlook)|].
    intros t Ht. rw /call_now /datetime in Hnow. cbn in Ht. lia.
  - apply (IH _ (call_now c)); [by rw Hw'|by rw Hc'|done|done| |done].
    eapply Forall_impl; [exact Hlater|]. intros c' Hc. by rw /compose in Hc.
Qed.

(** X15: a negative window switches the limiter off.  A limiter built with a
    negative number of minutes and a positive cap, called with clock readings
    that never decrease, never drops: each purge empties the record before
    the cap is looked at. *)
Theorem X15_negative_window_never_drops (window_minutes cap : Z) calls :
  window_minutes < 0 -> 0 < cap -> monotonic calls ->
  Forall (fun decision => decision <> Ok true)
    (run (init window_minutes cap) calls).1.
Proof.
  intros Hw Hcap Hmono. destruct calls as [|c calls]; [by constructor|].
  apply (never_drops_with_negative_window _ _ (call_now c)); try done.
  - rw /init /timedelta_minutes. cbn [rate_limit_window]. lia.
  - rw /monotonic fmap_cons in Hmono.
    apply StronglySorted_inv in Hmono as [_ Hlater].
    apply (proj1 (Forall_fmap _ _ _)) in Hlater.
    constructor; [lia|].
    eapply Forall_impl; [exact Hlater|]. intros c' Hc. by rw /compose in Hc.
Qed.

(** ** The range of datetimes *)

(** X16: the constructor and the clock in practice.  [__init__] builds the
    limiter for a window of 0 to 1035593280 minutes, and raises
    [OverflowError] for a window longer than the longest [timedelta];  with
    such a window and a clock reading since 1970, [now - window] is a
    datetime, so that [should_rate_limit] returns a decision whenever
    extraction succeeds and [before_send] logs nothing. *)
Theorem X16_no_overflow_in_practice (window_minutes cap : Z) :
  0 <= window_minutes <= 1035593280 ->
  __init__ window_minutes cap = Ok (init window_minutes cap) /\
  (forall minutes, timedelta_max < timedelta_minutes minutes ->
     __init__ minutes cap = Raise OverflowError) /\
  (forall self event hint (now : datetime) fingerprint,
     rate_limit_window self = timedelta_minutes window_minutes ->
     0 <= now <= datetime_max ->
     build_event_fingerprint event hint = Ok fingerprint ->
     representable (now - rate_limit_window self) /\
     (exists drop_event self',
        should_rate_limit event hint now self = (Ok drop_event, self')) /\
     (before_send event hint now self).2 = []).
Proof.
  intros Hwindow. split; [|split].
  - rw /__init__ /timedelta_of_minutes bool_decide_eq_true_2; [|done].
    rw /timedelta_minutes /timedelta_min /timedelta_max. lia.
  - intros minutes Hlong.
    rw /__init__ /timedelta_of_minutes bool_decide_eq_false_2; [|done].
    intros [_ Hle]. lia.
  - intros self event hint now fingerprint Hw Hnow Hfp.
    have Hr : representable (now - rate_limit_window self).
    { rw Hw /representable /timedelta_minutes /datetime_min.
      rw /datetime_max in Hnow |- *. lia. }
    split; [done|].
    destruct (should_rate_limit_records _ _ now self _ Hfp Hr)
      as (self' & Hcall & _).
    split; [by eauto|].
    rw /before_send /before_send_with Hcall.
    by destruct (record_step _ _ _ _).1.
Qed.

(** * Instances of the further properties *)

(** The clock readings of a burst lie within one minute after its start, in
    order. *)
Ltac burst_in_window :=
  rw /burst;
  repeat (apply List.Forall_cons;
          [rw /call_now /t0_sample /init /timedelta_minutes;
           cbn [snd rate_limit_window]; lia|]);
  apply List.Forall_nil.

(** The boundary of each call of a burst is a datetime. *)
Ltac burst_representable :=
  rw /burst;
  repeat (apply List.Forall_cons;
          [rw /representable; split; by vm_compute|]);
  apply List.Forall_nil.

Ltac burst_monotonic :=
  rw /monotonic /burst /call_now /t0_sample; cbn [fmap list_fmap snd];
  repeat (apply SSorted_cons;
          [|repeat (apply Forall_cons; split; [lia|]); by apply Forall_nil]);
  apply SSorted_nil.

Lemma X1_at_most_cap_admitted_per_window_witness :
  0 <= rate_limit_number_of_events (init 1 2) /\
  bounded (init 1 2) /\
  Forall (fun c => t0_sample <= call_now c
                   <= t0_sample + rate_limit_window (init 1 2))
    (burst t0_sample) /\
  Z.of_nat (admitted (decisions_for sample_fingerprint (init 1 2)
                        (burst t0_sample))) <= 2.
Proof.
  have Hcap : 0 <= rate_limit_number_of_events (init 1 2)
    by (cbn [init rate_limit_number_of_events]; lia).
  have Hb : bounded (init 1 2) by done.
  have Hcalls : Forall (fun c => t0_sample <= call_now c
                                 <= t0_sample + rate_limit_window (init 1 2))
                  (burst t0_sample) by burst_in_window.
  split; [exact Hcap|split; [exact Hb|split; [exact Hcalls|]]].
  exact (X1_at_most_cap_admitted_per_window sample_fingerprint t0_sample
           (init 1 2) (burst t0_sample) Hcap Hb Hcalls).
Defined.

Lemma X2_admitted_below_cap_witness :
  Z.of_nat (length (record_of (init 1 5) sample_fingerprint)
            + length (times_for sample_fingerprint (burst t0_sample)))
  <= rate_limit_number_of_events (init 1 5) /\
  Forall (fun t => representable (t - rate_limit_window (init 1 5)))
    (times_for sample_fingerprint (burst t0_sample)) /\
  decisions_for sample_fingerprint (init 1 5) (burst t0_sample)
  = [Ok false; Ok false; Ok false; Ok false].
Proof.
  have Hroom :
    Z.of_nat (length (record_of (init 1 5) sample_fingerprint)
              + length (times_for sample_fingerprint (burst t0_sample)))
    <= rate_limit_number_of_events (init 1 5) by (vm_compute; discriminate).
  have Hrs : Forall (fun t => representable (t - rate_limit_window (init 1 5)))
               (times_for sample_fingerprint (burst t0_sample)).
  { apply times_for_representable. burst_representable. }
  split; [exact Hroom|split; [exact Hrs|]].
  exact (X2_admitted_below_cap sample_fingerprint (burst t0_sample)
           (init 1 5) Hroom Hrs).
Defined.

Lemma X3_fingerprints_do_not_interfere_witness :
  monotonic (burst t0_sample) /\
  Forall (fun t => representable (t - rate_limit_window (init 1 2)))
    (times_for sample_fingerprint (burst t0_sample)) /\
  decisions_for sample_fingerprint (init 1 2) (burst t0_sample)
  = Ok <$> record_run 2 (timedelta_minutes 1) []
             [t0_sample; t0_sample + 1; t0_sample + 3; t0_sample + 4].
Proof.
  have Hmono : monotonic (burst t0_sample) by burst_monotonic.
  have Hrs : Forall (fun t => representable (t - rate_limit_window (init 1 2)))
               (times_for sample_fingerprint (burst t0_sample)).
  { apply times_for_representable. burst_representable. }
  split; [exact Hmono|split; [exact Hrs|]].
  exact (X3_fingerprints_do_not_interfere sample_fingerprint (init 1 2)
           (burst t0_sample) Hmono Hrs).
Defined.

Lemma X4_admitted_after_quiet_window_witness :
  build_event_fingerprint empty_event sample_hint = Ok sample_fingerprint /\
  representable (timedelta_minutes 2 - rate_limit_window cap_reached) /\
  0 < rate_limit_number_of_events cap_reached /\
  Forall (fun t => t < timedelta_minutes 2 - rate_limit_window cap_reached)
    (record_of cap_reached sample_fingerprint) /\
  exists self',
    should_rate_limit empty_event sample_hint (timedelta_minutes 2) cap_reached
    = (Ok false, self') /\
    recorded self' !! sample_fingerprint = Some [timedelta_minutes 2].
Proof.
  have Hr : representable (timedelta_minutes 2 - rate_limit_window cap_reached).
  { rw /representable. split; by vm_compute. }
  have Hcap : 0 < rate_limit_number_of_events cap_reached by reflexivity.
  have Hold : Forall (fun t => t < timedelta_minutes 2
                                   - rate_limit_window cap_reached)
                (record_of cap_reached sample_fingerprint).
  { change (record_of cap_reached sample_fingerprint) with [0; 0].
    repeat (apply List.Forall_cons; [reflexivity|]). apply List.Forall_nil. }
  split; [reflexivity|split; [exact Hr|split; [exact Hcap|split; [exact Hold|]]]].
  exact (X4_admitted_after_quiet_window empty_event sample_hint
           (timedelta_minutes 2) cap_reached sample_fingerprint
           eq_refl Hr Hcap Hold).
Defined.

Lemma X5_nothing_admitted_without_cap_witness :
  rate_limit_number_of_events (init 1 0) <= 0 /\
  admitted (run (init 1 0) (burst t0_sample)).1 = 0%nat.
Proof.
  have Hcap : rate_limit_number_of_events (init 1 0) <= 0
    by (cbn [init rate_limit_number_of_events]; lia).
  split; [exact Hcap|].
  exact (proj1 (X5_nothing_admitted_without_cap (init 1 0) (burst t0_sample)
                  Hcap)).
Defined.

Lemma X6_purge_removes_exactly_the_expired_witness :
  time_ordered cap_reached /\
  representable (timedelta_minutes 2 - rate_limit_window cap_reached) /\
  recorded (remove_old_records (timedelta_minutes 2) cap_reached).2
    !! sample_fingerprint
  = List.filter
      (fun t => timedelta_minutes 2 - rate_limit_window cap_reached <=? t)
      <$> recorded cap_reached !! sample_fingerprint.
Proof.
  have Hsorted : time_ordered cap_reached.
  { apply (run_ordered _ _ 0); [done|done| |].
    - repeat (apply List.Forall_cons; [reflexivity|]). apply List.Forall_nil.
    - rw /monotonic. cbn [fmap list_fmap call_now snd].
      repeat (apply SSorted_cons;
              [|repeat (apply Forall_cons; split; [lia|]);
                by apply Forall_nil]).
      apply SSorted_nil. }
  have Hr : representable (timedelta_minutes 2 - rate_limit_window cap_reached).
  { rw /representable. split; by vm_compute. }
  split; [exact Hsorted|split; [exact Hr|]].
  exact (proj1 (X6_purge_removes_exactly_the_expired (timedelta_minutes 2)
                  cap_reached sample_fingerprint Hsorted) Hr).
Defined.

Lemma X7_purges_compose_witness :
  timedelta_minutes 1 <= timedelta_minutes 2 /\
  representable (timedelta_minutes 2 - rate_limit_window cap_reached) /\
  (remove_old_records (timedelta_minutes 2)
     (remove_old_records (timedelta_minutes 1) cap_reached).2).2
  = (remove_old_records (timedelta_minutes 2) cap_reached).2.
Proof.
  have Hle : timedelta_minutes 1 <= timedelta_minutes 2
    by (rw /timedelta_minutes; lia).
  have Hr : representable (timedelta_minutes 2 - rate_limit_window cap_reached).
  { rw /representable. split; by vm_compute. }
  split; [exact Hle|split; [exact Hr|]].
  exact (X7_purges_compose _ _ cap_reached Hle Hr).
Defined.

Lemma X9_unusable_threads_are_not_skipped_witness :
  exc_info sample_hint = None /\
  threads (thread_event lineless_frames)
  = Some {| values :=
              [Thread.mk 1 (Some (Stacktrace.mk (Some lineless_frames)))] |} /\
  build_event_fingerprint headless_thread_event sample_hint
  = Raise (KeyError "stacktrace") /\
  build_event_fingerprint frameless_thread_event sample_hint
  = Raise (KeyError "frames") /\
  build_event_fingerprint (thread_event lineless_frames) sample_hint
  = Raise (KeyError "lineno").
Proof.
  split; [reflexivity|split; [reflexivity|]].
  have Hgood : Forall has_path_and_line [frame "a.py" 1 "f"].
  { apply List.Forall_cons; [by eexists|apply List.Forall_nil]. }
  have Hbad : ~ has_path_and_line (Frame.mk (Some "b.py") None "g").
  { by intros [p [=]]. }
  split; [|split].
  - exact (proj1 (proj2 (X9_unusable_threads_are_not_skipped
                           headless_thread_event sample_hint _
                           eq_refl eq_refl))
             _ eq_refl eq_refl).
  - exact (proj1 (proj2 (proj2 (X9_unusable_threads_are_not_skipped
                                  frameless_thread_event sample_hint _
                                  eq_refl eq_refl)))
             _ _ eq_refl eq_refl eq_refl).
  - exact (proj1 (proj2 (proj2 (proj2 (X9_unusable_threads_are_not_skipped
                                         (thread_event lineless_frames)
                                         sample_hint _ eq_refl eq_refl))))
             _ _ [frame "a.py" 1 "f"] (Frame.mk (Some "b.py") None "g") []
             eq_refl eq_refl eq_refl Hgood Hbad).
Defined.

Lemma X11_empty_fingerprint_iff_no_frame_witness :
  site_of empty_event (exception_hint []) = Some [] /\
  build_event_fingerprint empty_event (exception_hint []) = Ok "".
Proof.
  split; [reflexivity|].
  exact (proj2 (X11_empty_fingerprint_iff_no_frame empty_event
                  (exception_hint []) [] eq_refl) eq_refl).
Defined.

Lemma X12_log_record_fingerprint_injective_witness :
  contains ":"%char "app.py" = false /\
  (build_event_fingerprint empty_event sample_hint
   = build_event_fingerprint empty_event other_hint
   <-> LogRecord.mk "app.py" 12 "oops %s" = LogRecord.mk "app.py" 40 "gone").
Proof.
  split; [reflexivity|].
  exact (X12_log_record_fingerprint_injective empty_event sample_hint
           empty_event other_hint _ _ eq_refl eq_refl eq_refl
           eq_refl eq_refl eq_refl (or_introl (conj eq_refl eq_refl))).
Defined.

Lemma X13_hook_forwards_at_most_cap_witness :
  0 <= rate_limit_number_of_events (init 1 2) /\
  bounded (init 1 2) /\
  Forall (fun c => t0_sample <= call_now c
                   <= t0_sample + rate_limit_window (init 1 2))
    (burst t0_sample) /\
  Forall (fun t => representable (t - rate_limit_window (init 1 2)))
    (times_for sample_fingerprint (burst t0_sample)) /\
  Z.of_nat (length (forwarded_for before_send sample_fingerprint (init 1 2)
                      (burst t0_sample))) <= 2.
Proof.
  have Hcap : 0 <= rate_limit_number_of_events (init 1 2)
    by (cbn [init rate_limit_number_of_events]; lia).
  have Hb : bounded (init 1 2) by done.
  have Hcalls : Forall (fun c => t0_sample <= call_now c
                                 <= t0_sample + rate_limit_window (init 1 2))
                  (burst t0_sample) by burst_in_window.
  have Hrs : Forall (fun t => representable (t - rate_limit_window (init 1 2)))
               (times_for sample_fingerprint (burst t0_sample)).
  { apply times_for_representable. burst_representable. }
  split; [exact Hcap|split; [exact Hb|split; [exact Hcalls|]]].
  split; [exact Hrs|].
  exact (proj1 (X13_hook_forwards_at_most_cap sample_fingerprint t0_sample
                  (init 1 2) (burst t0_sample) Hcap Hb Hcalls Hrs)).
Defined.

Lemma X14_example_hook_five_per_minute_witness :
  Forall (fun c => t0_sample <= call_now c
                   <= t0_sample + timedelta_minutes 1)
    (burst t0_sample) /\
  Forall (fun c => representable (call_now c - timedelta_minutes 1))
    (burst t0_sample) /\
  (length (forwarded_for sentry_config.before_send sample_fingerprint
             sentry_config.event_limiter (burst t0_sample)) <= 5)%nat.
Proof.
  have Hcalls : Forall (fun c => t0_sample <= call_now c
                                 <= t0_sample + timedelta_minutes 1)
                  (burst t0_sample) by burst_in_window.
  have Hrs : Forall (fun c => representable
                                (call_now c - timedelta_minutes 1))
               (burst t0_sample) by burst_representable.
  split; [exact Hcalls|split; [exact Hrs|]].
  exact (X14_example_hook_five_per_minute sample_fingerprint t0_sample
           (burst t0_sample) Hcalls Hrs).
Defined.

Lemma X15_negative_window_never_drops_witness :
  -1 < 0 /\ 0 < 2 /\ monotonic (burst t0_sample) /\
  Forall (fun decision => decision <> Ok true)
    (run (init (-1) 2) (burst t0_sample)).1.
Proof.
  have Hw : -1 < 0 by lia. have Hcap : 0 < 2 by lia.
  have Hmono : monotonic (burst t0_sample) by burst_monotonic.
  split; [exact Hw|split; [exact Hcap|split; [exact Hmono|]]].
  exact (X15_negative_window_never_drops (-1) 2 (burst t0_sample)
           Hw Hcap Hmono).
Defined.

Lemma X16_no_overflow_in_practice_witness :
  0 <= 1 <= 1035593280 /\
  __init__ 1 2 = Ok (init 1 2) /\
  __init__ 1500000000000 2 = Raise OverflowError.
Proof.
  have Hwindow : 0 <= 1 <= 1035593280 by lia.
  have Hlong : timedelta_max < timedelta_minutes 1500000000000
    by reflexivity.
  split; [exact Hwindow|split].
  - exact (proj1 (X16_no_overflow_in_practice 1 2 Hwindow)).
  - exact (proj1 (proj2 (X16_no_overflow_in_practice 1 2 Hwindow)) _ Hlong).
Defined.
